(** * VLCRepair: the SoundFont configuration merger and the patch orchestrator

    A shallow embedding of [monalisa.py] (the vlcrc line merger and the
    [configure_vlc_soundfont] operation around it) and of [patch_vlc.py]
    (the clone / patch / configure / build sequence), with the properties
    of the specification stated and proved over the embedding. *)

From Stdlib Require Import String Ascii NArith ZArith Lia DecimalString.
From stdpp Require Import base option list sorting gmap.

(** ** Python strings

    A Python [str] is a sequence of Unicode code points.  The code uses
    [lstrip], [startswith], [endswith], [+], [join] and [splitlines]. *)

Abbreviation pystr := (list N).

(** An ASCII literal as a Python string. *)
Definition py (s : string) : pystr :=
  map N_of_ascii (list_ascii_of_string s).

Definition LF : N := 10%N.
Definition CR : N := 13%N.
Definition DQUOTE : N := 34%N.

(** [str.isspace] on one code point (CPython's [_PyUnicode_IsWhitespace]);
    these are the characters [lstrip()] removes. *)
Definition isspace (c : N) : bool :=
  ((9 <=? c) && (c <=? 13) || (28 <=? c) && (c <=? 32)
   || (c =? 133) || (c =? 160) || (c =? 5760)
   || (8192 <=? c) && (c <=? 8202)
   || (c =? 8232) || (c =? 8233) || (c =? 8239) || (c =? 8287)
   || (c =? 12288))%N.

(** The line boundaries of [str.splitlines] ([_PyUnicode_IsLinebreak]). *)
Definition islinebreak (c : N) : bool :=
  ((10 <=? c) && (c <=? 13) || (28 <=? c) && (c <=? 30)
   || (c =? 133) || (c =? 8232) || (c =? 8233))%N.

Fixpoint lstrip (s : pystr) : pystr :=
  match s with
  | [] => []
  | c :: r => if isspace c then lstrip r else s
  end.

Fixpoint startswith (s prefix : pystr) {struct prefix} : bool :=
  match prefix, s with
  | [], _ => true
  | _ :: _, [] => false
  | p :: prefix', c :: s' => (c =? p)%N && startswith s' prefix'
  end.

Definition endswith (s suffix : pystr) : bool :=
  startswith (rev s) (rev suffix).

(** [text.splitlines(keepends=True)]: [cur] holds, reversed, the
    characters of the line being read. *)
Fixpoint splitlines_from (cur : pystr) (s : pystr) : list pystr :=
  match s with
  | [] => match cur with [] => [] | _ => [rev cur] end
  | c :: r =>
      if (c =? CR)%N then
        match r with
        | c' :: r' =>
            if (c' =? LF)%N then rev (c' :: c :: cur) :: splitlines_from [] r'
            else rev (c :: cur) :: splitlines_from [] r
        | [] => rev (c :: cur) :: splitlines_from [] r
        end
      else if islinebreak c then rev (c :: cur) :: splitlines_from [] r
      else splitlines_from (c :: cur) r
  end.

Definition splitlines (s : pystr) : list pystr := splitlines_from [] s.

(** Vocabulary for the properties of [splitlines]: a text without line
    boundary; what ends a line that [rest] follows (nothing at the end of
    the text, CR LF, or one boundary character, a CR not being followed
    by LF); a text after which a line starts when [y] follows. *)
Definition no_linebreak (s : pystr) : bool :=
  forallb (λ c, negb (islinebreak c)) s.

Definition terminator (term rest : pystr) : Prop :=
  (term = [] ∧ rest = [])
  ∨ term = [CR; LF]
  ∨ ∃ c, term = [c] ∧ islinebreak c = true ∧ (c = CR → head rest ≠ Some LF).

Definition clean_end (a y : pystr) : Prop :=
  a = [] ∨ ∃ a' c, a = a' ++ [c] ∧ islinebreak c = true
                   ∧ (c = CR → head y ≠ Some LF).

(** ["".join(lines)] *)
Definition join (lines : list pystr) : pystr := concat lines.

(** [sep.join(parts)] *)
Fixpoint join_sep (sep : pystr) (parts : list pystr) : pystr :=
  match parts with
  | [] => []
  | [x] => x
  | x :: r => x ++ sep ++ join_sep sep r
  end.

(** Number of elements of a list that satisfy a boolean test. *)
Fixpoint count_if {A} (f : A -> bool) (l : list A) : nat :=
  match l with
  | [] => 0
  | x :: r => (if f x then 1 else 0) + count_if f r
  end.

(** ** Paths

    A [pathlib] path is the list of its components; [p / name] appends
    one, and [p.name] is the last. *)

Abbreviation path := (list pystr) (only parsing).

Definition joinpath (p : path) (name : pystr) : path := p ++ [name].

Definition name (p : path) : pystr := default [] (last p).

(** ** monalisa.py *)

Module Monalisa.

(** [f'soundfont="{sf_path}"\n'], where [sf_path] stands for the text the
    f-string renders for the path, [str(sf_path)]. *)
Definition target_line (sf_path : pystr) : pystr :=
  py "soundfont=" ++ [DQUOTE] ++ sf_path ++ [DQUOTE; LF].

(** The element appended before the setting when nothing matched:
    ["\n# Set by configure_vlc_soundfont.py\n"], one list element. *)
Definition marker : pystr :=
  [LF] ++ py "# Set by configure_vlc_soundfont.py" ++ [LF].

(** The two prefixes of the test in the loop, on the stripped line. *)
Definition is_active (line : pystr) : bool :=
  startswith (lstrip line) (py "soundfont=").

Definition is_commented (line : pystr) : bool :=
  startswith (lstrip line) (py "#soundfont=").

Definition is_match (line : pystr) : bool :=
  let stripped := lstrip line in
  startswith stripped (py "soundfont=") || startswith stripped (py "#soundfont=").

(** The [for] loop of [update_soundfont_in_lines], threading the two
    locals [updated] and [found]. *)
Fixpoint scan (target : pystr) (lines : list pystr)
    (updated : list pystr) (found : bool) : list pystr * bool :=
  match lines with
  | [] => (updated, found)
  | line :: rest =>
      if is_match line then scan target rest (updated ++ [target]) true
      else scan target rest (updated ++ [line]) found
  end.

(** [updated[-1]] of a non-empty list; [updated[-1] = v] is the insert at
    index [length updated - 1]. *)
Definition last_line (updated : list pystr) : pystr :=
  default [] (last updated).

Definition update_soundfont_in_lines (lines : list pystr) (sf_path : pystr)
    : list pystr :=
  let target := target_line sf_path in
  let '(updated, found) := scan target lines [] false in
  if negb found then
    let updated :=
      if negb (bool_decide (updated = []))
         && negb (endswith (last_line updated) [LF])
      then <[length updated - 1 := last_line updated ++ [LF]]> updated
      else updated in
    (updated ++ [marker]) ++ [target]
  else updated.

(** Vocabulary for the properties of the merger: what the loop puts in
    place of one line, and a line with its newline ensured. *)
Definition replace_line (target line : pystr) : pystr :=
  if is_match line then target else line.

Definition terminated (line : pystr) : pystr :=
  if endswith line [LF] then line else line ++ [LF].

(** *** The file system and the environment

    The empty path is the anchor (the root, or the current directory of a
    relative path) and always counts as an existing directory. *)

(** [s.rfind(c)]: the index of the last occurrence. *)
Fixpoint rfind (c : N) (s : pystr) : option nat :=
  match s with
  | [] => None
  | x :: r =>
      match rfind c r with
      | Some i => Some (S i)
      | None => if (x =? c)%N then Some 0 else None
      end
  end.

Definition DOT : N := 46%N.

(** [PurePath.suffix]: the last dot-separated part of the name, dot
    included, when the dot is neither first nor last. *)
Definition suffix (p : path) : pystr :=
  let nm := name p in
  match rfind DOT nm with
  | Some i => if (0 <? i) && (i <? length nm - 1) then drop i nm else []
  | None => []
  end.

Inductive exn : Type :=
  | RuntimeError
  | ValueError
  | FileNotFoundError
  | FileExistsError
  | NotADirectoryError
  | IsADirectoryError
  | UnicodeEncodeError.

Inductive res (A : Type) : Type :=
  | Ok (a : A)
  | Raise (e : exn).
Arguments Ok {A} a.
Arguments Raise {A} e.

(** [PurePath.with_suffix]. *)
Definition with_suffix (p : path) (suf : pystr) : res path :=
  if negb (bool_decide (suf = [])) && negb (startswith suf [DOT])
     || bool_decide (suf = [DOT])
  then Raise ValueError
  else
    let nm := name p in
    if bool_decide (nm = []) then Raise ValueError
    else
      let old_suffix := suffix p in
      let nm' :=
        if bool_decide (old_suffix = []) then nm ++ suf
        else take (length nm - length old_suffix) nm ++ suf in
      Ok (removelast p ++ [nm']).

(** The operations on the file system that the run performs, in order. *)
Inductive fsop : Type :=
  | OpMkdir (p : path)
  | OpRead (p : path)
  | OpWrite (p : path).

Record World : Type := mkWorld {
  environ : gmap pystr pystr;
  files : gmap path (list Byte.byte);
  dirs : gset path;
  oplog : list fsop
}.

Definition log (op : fsop) (w : World) : World :=
  mkWorld (environ w) (files w) (dirs w) (oplog w ++ [op]).

Definition set_file (p : path) (data : list Byte.byte) (w : World) : World :=
  mkWorld (environ w) (<[p := data]> (files w)) (dirs w) (oplog w).

Definition add_dirs (ps : list path) (w : World) : World :=
  mkWorld (environ w) (files w) (dirs w ∪ list_to_set ps) (oplog w).

Definition is_file (w : World) (p : path) : bool :=
  bool_decide (is_Some (files w !! p)).

Definition is_dir (w : World) (p : path) : bool :=
  bool_decide (p = [] ∨ p ∈ dirs w).

Definition path_exists (w : World) (p : path) : bool :=
  is_file w p || is_dir w p.

(** The code runs in a state-and-exception monad over the world. *)
Definition M (A : Type) : Type := World -> res A * World.

#[global] Instance M_ret : MRet M := λ A a w, (Ok a, w).

#[global] Instance M_bind : MBind M := λ A B k c w,
  match c w with
  | (Ok a, w') => k a w'
  | (Raise e, w') => (Raise e, w')
  end.

Definition raise {A} (e : exn) : M A := λ w, (Raise e, w).

Definition lift {A} (r : res A) : M A := λ w, (r, w).

Definition get {A} (f : World -> A) : M A := λ w, (Ok (f w), w).

Definition modify (f : World -> World) : M unit := λ w, (Ok tt, f w).

(** Triples for reasoning on runs: from a world in [P], the computation
    ends in [Q] when it returns and in [E] when it raises.  [keeps] is the
    case of one property kept whatever the outcome. *)
Definition hoare {A} (P : World -> Prop) (c : M A)
    (Q : A -> World -> Prop) (E : World -> Prop) : Prop :=
  ∀ w, P w → match c w with
             | (Ok a, w') => Q a w'
             | (Raise _, w') => E w'
             end.

Definition keeps {A} (I : World -> Prop) (c : M A) : Prop :=
  hoare I c (λ _, I) I.

(** The environment is [env] and the file at [p] is [v] (or absent). *)
Definition file_is (env : gmap pystr pystr) (p : path)
    (v : option (list Byte.byte)) (w : World) : Prop :=
  environ w = env ∧ files w !! p = v.

(** The non-empty prefixes of a path, shortest first. *)
Definition ancestors_and_self (p : path) : list path :=
  map (λ n, take n p) (seq 1 (length p)).

(** [p.mkdir(parents=True, exist_ok=True)].  [os.mkdir] walks the path
    from the top and stops at the first component that is a file: when
    that is [p] itself it reports [EEXIST], which [exist_ok] forgives
    for a directory only, so [FileExistsError] is raised; when it is a
    component above [p] it reports [ENOTDIR] (as [mkdir(2)] does on
    POSIX) and [NotADirectoryError] is raised.  Nothing is made in both
    cases.  Otherwise [p] and its ancestors are directories afterwards. *)
Definition mkdir_parents (p : path) : M unit :=
  modify (log (OpMkdir p)) ;;
  blocked ← get (λ w, find (is_file w) (ancestors_and_self p));
  match blocked with
  | Some q =>
      if bool_decide (q = p) then raise FileExistsError
      else raise NotADirectoryError
  | None => modify (add_dirs (ancestors_and_self p))
  end.

(** Opening [p] for reading. *)
Definition read_bytes (p : path) : M (list Byte.byte) :=
  modify (log (OpRead p)) ;;
  content ← get (λ w, files w !! p);
  match content with
  | Some data => mret data
  | None =>
      d ← get (λ w, is_dir w p);
      if d : bool then raise IsADirectoryError else raise FileNotFoundError
  end.

(** Opening [p] for writing truncates it; the parent must be a directory. *)
Definition open_w (p : path) : M unit :=
  modify (log (OpWrite p)) ;;
  d ← get (λ w, is_dir w p);
  if d : bool then raise IsADirectoryError
  else
    pd ← get (λ w, is_dir w (removelast p));
    if pd : bool then modify (set_file p []) else raise FileNotFoundError.

Definition write_bytes (p : path) (data : list Byte.byte) : M unit :=
  open_w p ;; modify (set_file p data).

Section Configure.

(** What the Python library and the platform provide: [Path(s)],
    [str(p)], [p.resolve()], and the text layer of [read_text] and
    [write_text] (UTF-8 with ignored errors and newline translation on
    reading; encoding, which can fail, on writing). *)
Variable Path_of_str : pystr -> path.
Variable path_str : path -> pystr.
Variable resolve : World -> path -> path.
Variable text_decode : list Byte.byte -> pystr.
Variable text_encode : pystr -> option (list Byte.byte).

Definition read_text (p : path) : M pystr :=
  data ← read_bytes p; mret (text_decode data).

Definition write_text (p : path) (text : pystr) : M unit :=
  open_w p ;;
  match text_encode text with
  | Some data => modify (set_file p data)
  | None => raise UnicodeEncodeError
  end.

Definition get_vlc_config_file : M path :=
  appdata ← get (λ w, environ w !! py "APPDATA");
  match appdata with
  | None => raise RuntimeError
  | Some a =>
      if bool_decide (a = []) then raise RuntimeError
      else
        let config_dir := joinpath (Path_of_str a) (py "vlc") in
        mkdir_parents config_dir ;;
        mret (joinpath config_dir (py "vlcrc"))
  end.

Definition backup_file (p : path) : M unit :=
  ex ← get (λ w, path_exists w p);
  if ex : bool then
    backup ← lift (with_suffix p (suffix p ++ py ".bak"));
    bex ← get (λ w, path_exists w backup);
    if negb bex then
      data ← read_bytes p;
      write_bytes backup data
    else mret tt
  else mret tt.

Definition configure_vlc_soundfont (sf_path : path) : M path :=
  isf ← get (λ w, is_file w sf_path);
  if negb isf then raise FileNotFoundError
  else
    vlcrc ← get_vlc_config_file;
    backup_file vlcrc ;;
    ex ← get (λ w, path_exists w vlcrc);
    lines ← (if ex : bool then
               text ← read_text vlcrc; mret (splitlines text)
             else mret []);
    resolved ← get (λ w, resolve w sf_path);
    let new_lines := update_soundfont_in_lines lines (path_str resolved) in
    write_text vlcrc (join new_lines) ;;
    mret vlcrc.

(** The world after a run, whatever its outcome. *)
Definition after_run (sf_path : path) (w : World) : World :=
  snd (configure_vlc_soundfont sf_path w).

(** Several runs in a row. *)
Fixpoint after_runs (sf_paths : list path) (w : World) : World :=
  match sf_paths with
  | [] => w
  | sf :: rest => after_runs rest (after_run sf w)
  end.

(** The configuration file and its backup for a value of [APPDATA]. *)
Definition vlcrc_of (appdata : pystr) : path :=
  joinpath (joinpath (Path_of_str appdata) (py "vlc")) (py "vlcrc").

Definition backup_of (appdata : pystr) : path :=
  joinpath (joinpath (Path_of_str appdata) (py "vlc")) (py "vlcrc.bak").

End Configure.

(** A small platform on which the operation runs: a path string is one
    component, paths render with [/], nothing to resolve, and the text
    layer is the one the code asks for, UTF-8, with the line separator
    [\n] of POSIX. *)
Definition simple_Path (s : pystr) : path := [s].
Definition simple_str (p : path) : pystr := join_sep (py "/") p.
Definition simple_resolve (w : World) (p : path) : path := p.

(** The byte of a number below 256. *)
Definition byte_of (n : N) : Byte.byte := default Byte.x00 (Byte.of_N n).

(** The UTF-8 encoding of one code point; a surrogate has none
    ([UnicodeEncodeError], surrogates not allowed). *)
Definition utf8_encode_char (c : N) : option (list Byte.byte) :=
  (let cont n := byte_of (128 + n mod 64) in
   if c <? 128 then Some [byte_of c]
   else if c <? 2048 then Some [byte_of (192 + c / 64); cont c]
   else if (55296 <=? c) && (c <? 57344) then None
   else if c <? 65536 then
     Some [byte_of (224 + c / 4096); cont (c / 64); cont c]
   else if c <? 1114112 then
     Some [byte_of (240 + c / 262144); cont (c / 4096); cont (c / 64); cont c]
   else None)%N.

(** [text.encode("utf-8")]. *)
Definition utf8_encode (text : pystr) : option (list Byte.byte) :=
  @concat Byte.byte <$> mapM utf8_encode_char text.

(** A continuation byte, [0x80] to [0xBF]. *)
Definition is_continuation (b : N) : bool :=
  ((128 <=? b) && (b <? 192))%N.

(** A second byte that cannot follow the lead byte [ch]: no continuation
    byte, an overlong form ([E0], [F0]), a surrogate ([ED]) or a code
    point above [U+10FFFF] ([F4]). *)
Definition bad_second (ch ch2 : N) : bool :=
  (negb (is_continuation ch2)
  || (if ch <? 240
      then if ch2 <? 160 then ch =? 224 else ch =? 237
      else if ch2 <? 144 then ch =? 240 else ch =? 244))%N.

(** [data.decode("utf-8", errors="ignore")] on the values of the bytes.
    An invalid start byte is dropped; at an invalid continuation byte the
    bytes before it are dropped and decoding goes on with that byte; a
    sequence cut by the end of the data is dropped. *)
Fixpoint utf8_decode_ignore_N (data : list N) : pystr :=
  (match data with
  | [] => []
  | ch :: rest =>
      if ch <? 128 then ch :: utf8_decode_ignore_N rest
      else if ch <? 194 then utf8_decode_ignore_N rest
      else if ch <? 224 then
        match rest with
        | [] => []
        | ch2 :: rest2 =>
            if is_continuation ch2
            then ((ch - 192) * 64 + (ch2 - 128)) :: utf8_decode_ignore_N rest2
            else utf8_decode_ignore_N rest
        end
      else if ch <? 240 then
        match rest with
        | [] => []
        | ch2 :: rest2 =>
            if bad_second ch ch2 then utf8_decode_ignore_N rest
            else
              match rest2 with
              | [] => []
              | ch3 :: rest3 =>
                  if is_continuation ch3
                  then ((ch - 224) * 4096 + (ch2 - 128) * 64 + (ch3 - 128))
                       :: utf8_decode_ignore_N rest3
                  else utf8_decode_ignore_N rest2
              end
        end
      else if ch <? 245 then
        match rest with
        | [] => []
        | ch2 :: rest2 =>
            if bad_second ch ch2 then utf8_decode_ignore_N rest
            else
              match rest2 with
              | [] => []
              | ch3 :: rest3 =>
                  if is_continuation ch3 then
                    match rest3 with
                    | [] => []
                    | ch4 :: rest4 =>
                        if is_continuation ch4
                        then ((ch - 240) * 262144 + (ch2 - 128) * 4096
                              + (ch3 - 128) * 64 + (ch4 - 128))
                             :: utf8_decode_ignore_N rest4
                        else utf8_decode_ignore_N rest3
                    end
                  else utf8_decode_ignore_N rest2
              end
        end
      else utf8_decode_ignore_N rest
  end)%N.

Definition utf8_decode_ignore (data : list Byte.byte) : pystr :=
  utf8_decode_ignore_N (map Byte.to_N data).

(** Reading in text mode: [\r\n] and [\r] become [\n]. *)
Fixpoint universal_newlines (text : pystr) : pystr :=
  (match text with
  | [] => []
  | c :: rest =>
      if c =? CR then
        match rest with
        | d :: rest' =>
            if d =? LF then LF :: universal_newlines rest'
            else LF :: universal_newlines rest
        | [] => [LF]
        end
      else c :: universal_newlines rest
  end)%N.

(** [read_text(encoding="utf-8", errors="ignore")] and
    [write_text(..., encoding="utf-8")]; with the line separator [\n]
    nothing is translated on writing. *)
Definition utf8_read (data : list Byte.byte) : pystr :=
  universal_newlines (utf8_decode_ignore data).

Definition utf8_write (text : pystr) : option (list Byte.byte) :=
  utf8_encode text.

Definition utf8 (text : pystr) : list Byte.byte :=
  default [] (utf8_write text).

(** A machine with a SoundFont on [D:] and a vlcrc that holds a commented
    setting. *)
Definition example_world : World :=
  mkWorld
    {[ py "APPDATA" := py "C:" ]}
    {[ [py "C:"; py "vlc"; py "vlcrc"]
         := utf8 (py "#soundfont=" ++ [LF] ++ py "foo=1" ++ [LF]);
       [py "D:"; py "Monalisa.sf2"] := [] ]}
    {[ [py "C:"]; [py "C:"; py "vlc"]; [py "D:"] ]}
    [].

(** The same machine before VLC has written any configuration. *)
Definition fresh_world : World :=
  mkWorld
    {[ py "APPDATA" := py "C:" ]}
    {[ [py "D:"; py "Monalisa.sf2"] := [] ]}
    {[ [py "C:"]; [py "D:"] ]}
    [].

(** The example machine with a SoundFont whose name holds the lone
    surrogate [U+DCFF], as Python reads a file name with the byte [0xFF],
    which is not UTF-8. *)
Definition odd_name : path := [py "D:"; [56575%N] ++ py ".sf2"].

Definition odd_name_world : World := set_file odd_name [] example_world.

(** A machine on which [APPDATA] names a file, and one on which
    [APPDATA/vlc] is a file. *)
Definition appdata_file_world : World :=
  mkWorld {[ py "APPDATA" := py "C:" ]} {[ [py "C:"] := [] ]} ∅ [].

Definition vlc_file_world : World :=
  mkWorld {[ py "APPDATA" := py "C:" ]} {[ [py "C:"; py "vlc"] := [] ]}
    {[ [py "C:"] ]} [].

Definition example_run (sf : path) : M path :=
  configure_vlc_soundfont simple_Path simple_str simple_resolve
    utf8_read utf8_write sf.

End Monalisa.

(** ** patch_vlc.py *)

Module PatchVlc.

Definition DEFAULT_REMOTE : pystr := py "https://code.videolan.org/videolan/vlc.git".
Definition DEFAULT_BRANCH : pystr := py "master".

(** The order of Python strings: lexicographic on code points. *)
Fixpoint str_leb (a b : pystr) : bool :=
  match a, b with
  | [], _ => true
  | _ :: _, [] => false
  | x :: a', y :: b' => (x <? y)%N || (x =? y)%N && str_leb a' b'
  end.

Definition str_eqb (a b : pystr) : bool := bool_decide (a = b).

(** The order of (POSIX) paths: lexicographic on the components. *)
Fixpoint path_leb (p q : path) : bool :=
  match p, q with
  | [], _ => true
  | _ :: _, [] => false
  | x :: p', y :: q' =>
      if str_eqb x y then path_leb p' q' else str_leb x y
  end.

Definition path_le (p q : path) : Prop := path_leb p q = true.

(** [sorted(paths)]: a stable sort by [path_leb]. *)
Fixpoint insert_sorted (x : path) (l : list path) : list path :=
  match l with
  | [] => [x]
  | y :: r => if path_leb x y then x :: l else y :: insert_sorted x r
  end.

Definition sorted (l : list path) : list path := foldr insert_sorted [] l.

(** The result of starting an external process and waiting for it. *)
Inductive proc_result : Type :=
  | Returned (returncode : Z)
  | LaunchError.

(** What the platform provides to the script: the state of the machine
    ([World]), [shutil.which], [Path.exists], [Path.mkdir(parents=True,
    exist_ok=True)], [Path.glob("*.patch")] (in directory order),
    [subprocess.run], [Path.host_resolve], [str(path)] and the text of a
    [CalledProcessError]. *)
Record Host (World : Type) : Type := mkHost {
  which : World -> pystr -> bool;
  host_exists : World -> path -> bool;
  host_mkdir : path -> World -> option World;
  host_glob : World -> path -> list path;
  subprocess_run : list pystr -> option pystr -> World -> proc_result * World;
  host_resolve : World -> path -> path;
  host_str : path -> pystr;
  error_str : list pystr -> Z -> pystr
}.
Arguments which {World} _ _ _.
Arguments host_exists {World} _ _ _.
Arguments host_mkdir {World} _ _ _.
Arguments host_glob {World} _ _ _.
Arguments subprocess_run {World} _ _ _ _.
Arguments host_resolve {World} _ _ _.
Arguments host_str {World} _ _.
Arguments error_str {World} _ _ _.

(** What a run does that can be observed: lines printed and processes
    started. *)
Inductive event : Type :=
  | EvOut (line : pystr)
  | EvErr (line : pystr)
  | EvRun (cmd : list pystr) (cwd : option pystr).

Inductive outcome (A : Type) : Type :=
  | Done (a : A)
  | SysExit (code : Z)
  | OSError.
Arguments Done {A} a.
Arguments SysExit {A} code.
Arguments OSError {A}.

(** The commands started, in order. *)
Fixpoint commands (evs : list event) : list (list pystr) :=
  match evs with
  | [] => []
  | EvRun cmd _ :: r => cmd :: commands r
  | _ :: r => commands r
  end.

(** Command-line arguments, as [argparse] returns them. *)
Record Args : Type := mkArgs {
  work_dir : path;
  patches_dir : path;
  remote : pystr;
  branch : pystr;
  apply_only : bool;
  bootstrap : bool;
  configure : bool;
  build : bool;
  jobs : Z;
  configure_flags : list pystr;
  reverse_patches : bool
}.

Section Orchestrator.

Context {World : Type} (host : Host World).

Record State : Type := mkState {
  world : World;
  events : list event
}.

Definition Script (A : Type) : Type := State -> outcome A * State.

#[global] Instance Script_ret : MRet Script := λ A a st, (Done a, st).

#[global] Instance Script_bind : MBind Script := λ A B k c st,
  match c st with
  | (Done a, st') => k a st'
  | (SysExit code, st') => (SysExit code, st')
  | (OSError, st') => (OSError, st')
  end.

Definition emit (ev : event) : Script unit :=
  λ st, (Done tt, mkState (world st) (events st ++ [ev])).

Definition print (line : pystr) : Script unit := emit (EvOut line).

Definition print_err (line : pystr) : Script unit := emit (EvErr line).

Definition sys_exit {A} (code : Z) : Script A := λ st, (SysExit code, st).

Definition ask {A} (f : World -> A) : Script A := λ st, (Done (f (world st)), st).

Definition mkdir (p : path) : Script unit :=
  λ st, match host_mkdir host p (world st) with
        | Some w' => (Done tt, mkState w' (events st))
        | None => (OSError, st)
        end.

(** [subprocess.run(cmd, cwd=..., check=True)]: the return code, or the
    error of a process that could not be started. *)
Definition subprocess (cmd : list pystr) (cwd : option pystr) : Script Z :=
  λ st, let '(r, w') := subprocess_run host cmd cwd (world st) in
        let st' := mkState w' (events st ++ [EvRun cmd cwd]) in
        match r with
        | Returned rc => (Done rc, st')
        | LaunchError => (OSError, st')
        end.

Definition run (cmd : list pystr) (cwd : option path) : Script unit :=
  print ([LF] ++ py "[RUN] " ++ join_sep (py " ") cmd) ;;
  rc ← subprocess cmd (option_map (host_str host) cwd);
  if (rc =? 0)%Z then mret tt
  else
    print_err (py "[ERROR] Command failed: " ++ error_str host cmd rc) ;;
    sys_exit rc.

Definition check_tool (tool : pystr) : Script unit :=
  found ← ask (λ w, which host w tool);
  if found : bool then mret tt
  else
    print_err (py "[ERROR] Required tool not found on PATH: " ++ tool) ;;
    sys_exit 1.

Definition ensure_repo (work_dir : path) (remote branch : pystr) : Script path :=
  let repo_dir := joinpath work_dir (py "vlc") in
  ex ← ask (λ w, host_exists host w repo_dir);
  (if negb ex then
     print (py "[INFO] Cloning VLC into " ++ host_str host repo_dir) ;;
     mkdir work_dir ;;
     run [py "git"; py "clone"; remote; host_str host repo_dir] None
   else
     print (py "[INFO] VLC repo exists at " ++ host_str host repo_dir
            ++ py ", fetching updates") ;;
     run [py "git"; py "fetch"; py "origin"] (Some repo_dir)) ;;
  print (py "[INFO] Checking out branch " ++ branch) ;;
  run [py "git"; py "checkout"; branch] (Some repo_dir) ;;
  run [py "git"; py "pull"; py "origin"; branch] (Some repo_dir) ;;
  mret repo_dir.

(** The command line of one patch application. *)
Definition apply_cmd (reverse : bool) (patch : path) : list pystr :=
  ([py "git"; py "apply"] ++ (if reverse then [py "--reverse"] else []))
  ++ [host_str host patch].

(** The body of the loop over the patch files. *)
Definition apply_patch (repo_dir : path) (reverse : bool) (patch : path)
    : Script unit :=
  print (py "[INFO] Applying patch: " ++ name patch) ;;
  run (apply_cmd reverse patch) (Some repo_dir).

(** [for x in xs: body(x)] *)
Fixpoint for_each {A} (xs : list A) (body : A -> Script unit) : Script unit :=
  match xs with
  | [] => mret tt
  | x :: r => body x ;; for_each r body
  end.

Definition apply_patches (repo_dir patches_dir : path) (reverse : bool)
    : Script unit :=
  ex ← ask (λ w, host_exists host w patches_dir);
  if negb ex then
    print (py "[INFO] No patches directory found: " ++ host_str host patches_dir)
  else
    patch_files ← ask (λ w, sorted (host_glob host w patches_dir));
    match patch_files with
    | [] =>
        print (py "[INFO] No .patch files found in " ++ host_str host patches_dir)
    | _ :: _ =>
        print (py "[INFO] Applying patches from " ++ host_str host patches_dir) ;;
        for_each patch_files (apply_patch repo_dir reverse)
    end.

Definition configure_vlc (repo_dir build_dir : path)
    (extra_flags : list pystr) (run_bootstrap : bool) : Script unit :=
  mkdir build_dir ;;
  (if run_bootstrap then
     print (py "[INFO] Running ./bootstrap in VLC repo") ;;
     run [py "./bootstrap"] (Some repo_dir)
   else mret tt) ;;
  let configure_script := joinpath repo_dir (py "configure") in
  ex ← ask (λ w, host_exists host w configure_script);
  if negb ex then
    print_err (py "[ERROR] configure script not found. Try running with --bootstrap.") ;;
    sys_exit 1
  else
    let cmd := [host_str host configure_script;
                py "--prefix=" ++ host_str host (joinpath build_dir (py "install"))]
               ++ extra_flags in
    print (py "[INFO] Configuring VLC (out-of-tree)") ;;
    run cmd (Some build_dir).

(** [str(jobs)] for an integer. *)
Definition int_str (n : Z) : pystr :=
  py (DecimalString.NilZero.string_of_int (Z.to_int n)).

Definition build_vlc (build_dir : path) (jobs : Z) : Script unit :=
  print (py "[INFO] Building VLC in " ++ host_str host build_dir) ;;
  let cmd := [py "make"] ++ (if (0 <? jobs)%Z then [py "-j"; int_str jobs] else []) in
  run cmd (Some build_dir).

(** [main], up to and including [ensure_repo]. *)
Definition main_prepare (args : Args) : Script (path * path * path) :=
  check_tool (py "git") ;;
  (if configure args || build args || bootstrap args
   then check_tool (py "make") else mret tt) ;;
  work_dir ← ask (λ w, host_resolve host w (work_dir args));
  patches_dir ← ask (λ w, host_resolve host w (patches_dir args));
  let build_dir := joinpath work_dir (py "build") in
  print (py "[INFO] Work directory: " ++ host_str host work_dir) ;;
  print (py "[INFO] Patches directory: " ++ host_str host patches_dir) ;;
  repo_dir ← ensure_repo work_dir (remote args) (branch args);
  mret (repo_dir, patches_dir, build_dir).

(** [main], after [apply_patches]. *)
Definition main_finish (args : Args) (repo_dir build_dir : path) : Script unit :=
  if apply_only args then
    print (py "[INFO] Apply-only mode requested, done.")
  else
    (if configure args then
       configure_vlc repo_dir build_dir (configure_flags args) (bootstrap args)
     else mret tt) ;;
    (if build args then build_vlc build_dir (jobs args) else mret tt) ;;
    print (py "[INFO] All done.").

Definition main (args : Args) : Script unit :=
  '(repo_dir, patches_dir, build_dir) ← main_prepare args;
  apply_patches repo_dir patches_dir (reverse_patches args) ;;
  main_finish args repo_dir build_dir.

(** The patch commands of a list all succeed, one after the other, from
    world [w]: the world they leave. *)
Fixpoint all_succeed (cmds : list (list pystr)) (cwd : option pystr)
    (w : World) : option World :=
  match cmds with
  | [] => Some w
  | c :: r =>
      match subprocess_run host c cwd w with
      | (Returned rc, w') => if (rc =? 0)%Z then all_succeed r cwd w' else None
      | (LaunchError, _) => None
      end
  end.

(** Vocabulary for the properties of the script: the commands a
    computation starts are, from every state, the first ones of
    [expected], and all of them when it returns; the commands it starts
    all satisfy [P]. *)
Definition runs_within {A} (c : Script A) (expected : list (list pystr))
    : Prop :=
  ∀ st, ∃ ran,
    commands (events (c st).2) = commands (events st) ++ ran
    ∧ ran `prefix_of` expected
    ∧ (∀ a, (c st).1 = Done a → ran = expected).

Definition only_runs {A} (P : list pystr -> Prop) (c : Script A) : Prop :=
  ∀ st, ∃ ran,
    commands (events (c st).2) = commands (events st) ++ ran ∧ Forall P ran.

End Orchestrator.

(** A small machine on which the script runs: the world counts the
    processes started, every tool is present, every path exists but
    [missing], the patches directory holds three patches, and a command
    fails with status 3 when it names a patch of [failing]. *)
Definition example_host (failing : list pystr) : Host nat :=
  mkHost nat
    (λ _ _, true)
    (λ _ p, negb (bool_decide (p = [py "missing"])))
    (λ _ w, Some w)
    (λ _ d, if bool_decide (d = [py "patches"])
            then [[py "patches"; py "b.patch"]; [py "patches"; py "a.patch"];
                  [py "patches"; py "c.patch"]]
            else [])
    (λ cmd _ w,
       (Returned (if existsb (λ a, bool_decide (a ∈ failing)) cmd then 3 else 0),
        S w))
    (λ _ p, p)
    (join_sep (py "/"))
    (λ _ _, py "non-zero exit status").

(** A machine without any tool on the path and without any file. *)
Definition bare_host : Host nat :=
  mkHost nat (λ _ _, false) (λ _ _, false) (λ _ w, Some w) (λ _ _, [])
    (λ _ _ w, (Returned 0, w)) (λ _ p, p) (join_sep (py "/")) (λ _ _, []).

Definition example_args : Args :=
  mkArgs [py "work"] [py "patches"] DEFAULT_REMOTE DEFAULT_BRANCH
    true false false false 0 [] false.

(** [--bootstrap --build --jobs 4], without [--configure]. *)
Definition build_args : Args :=
  mkArgs [py "work"] [py "patches"] DEFAULT_REMOTE DEFAULT_BRANCH
    false true false true 4 [] false.

End PatchVlc.

(** * Properties *)

(** ** Strings *)

Lemma startswith_snoc (c : N) (s p : pystr) :
  forallb (λ x, negb (x =? c)%N) p = true →
  startswith (s ++ [c]) p = startswith s p.
Proof.
  revert s. induction p as [|a p IH]; intros s Hp; [by destruct s|].
  simpl in Hp. apply andb_prop in Hp as [Ha Hp].
  destruct s as [|b s]; simpl.
  - rewrite N.eqb_sym. by destruct (a =? c)%N.
  - by rewrite IH.
Qed.

Lemma lstrip_snoc_LF (s : pystr) :
  lstrip (s ++ [LF]) = match lstrip s with [] => [] | _ => lstrip s ++ [LF] end.
Proof.
  induction s as [|c s IH]; [done|].
  simpl. destruct (isspace c); [done|]. done.
Qed.

Lemma endswith_snoc (s : pystr) (c : N) : endswith (s ++ [c]) [c] = true.
Proof. unfold endswith. rewrite rev_app_distr. simpl. by rewrite N.eqb_refl. Qed.

Lemma count_if_app {A} (f : A → bool) (l k : list A) :
  count_if f (l ++ k) = count_if f l + count_if f k.
Proof. induction l as [|x l IH]; simpl; [done|]. rewrite IH. lia. Qed.

Lemma count_if_zero {A} (f : A → bool) (l : list A) :
  count_if f l = 0 ↔ ∀ x, x ∈ l → f x = false.
Proof.
  induction l as [|x l IH]; simpl.
  - split; [|done]. intros _ x Hx. by apply elem_of_nil in Hx.
  - split.
    + intros H y Hy. apply elem_of_cons in Hy as [->|Hy].
      * destruct (f x); [lia|done].
      * apply IH; [|done]. destruct (f x); lia.
    + intros H. rewrite (H x) by apply list_elem_of_here.
      apply IH. intros y Hy. apply H. by apply list_elem_of_further.
Qed.

(** ** The line merger *)

Module MergeSpec.
Import Monalisa.

(** What the loop does to one line. *)
Lemma is_match_split (l : pystr) : is_match l = is_active l || is_commented l.
Proof. reflexivity. Qed.

Lemma target_is_active (sf : pystr) : is_active (target_line sf) = true.
Proof. reflexivity. Qed.

Lemma target_is_match (sf : pystr) : is_match (target_line sf) = true.
Proof. reflexivity. Qed.

Lemma target_not_commented (sf : pystr) : is_commented (target_line sf) = false.
Proof. reflexivity. Qed.

Lemma marker_no_match : is_match marker = false.
Proof. reflexivity. Qed.

Lemma is_match_snoc_LF (l : pystr) : is_match (l ++ [LF]) = is_match l.
Proof.
  unfold is_match. cbv zeta. rewrite lstrip_snoc_LF.
  destruct (lstrip l) as [|c r] eqn:E; [done|].
  by rewrite !startswith_snoc.
Qed.

Lemma scan_spec (t : pystr) (lines updated : list pystr) (found : bool) :
  scan t lines updated found =
    (updated ++ (replace_line t <$> lines),
     found || negb (count_if is_match lines =? 0)).
Proof.
  revert updated found. induction lines as [|l lines IH]; intros updated found.
  - simpl. by rewrite app_nil_r, orb_false_r.
  - rewrite fmap_cons. unfold replace_line at 1. simpl.
    destruct (is_match l); rewrite IH, <- app_assoc; simpl.
    + by rewrite orb_true_r.
    + done.
Qed.

Lemma fmap_no_match (t : pystr) (lines : list pystr) :
  count_if is_match lines = 0 →
  replace_line t <$> lines = lines.
Proof.
  intros H. induction lines as [|l lines IH]; [done|].
  rewrite fmap_cons. unfold replace_line at 1. simpl in H.
  destruct (is_match l); [lia|]. by rewrite IH.
Qed.

(** Some line matched: every matching line is replaced in place. *)
Lemma update_found (lines : list pystr) (sf : pystr) :
  0 < count_if is_match lines →
  update_soundfont_in_lines lines sf = replace_line (target_line sf) <$> lines.
Proof.
  intros H. unfold update_soundfont_in_lines. rewrite scan_spec. simpl.
  destruct (count_if is_match lines =? 0) eqn:E; [apply Nat.eqb_eq in E; lia|done].
Qed.

(** No line matched: the lines, the last one terminated, then the marker
    and the setting. *)
Lemma update_not_found (lines : list pystr) (sf : pystr) :
  count_if is_match lines = 0 →
  update_soundfont_in_lines lines sf =
    (if negb (bool_decide (lines = [])) && negb (endswith (last_line lines) [LF])
     then <[length lines - 1 := last_line lines ++ [LF]]> lines
     else lines) ++ [marker; target_line sf].
Proof.
  intros H. unfold update_soundfont_in_lines. rewrite scan_spec. simpl.
  rewrite H. simpl. rewrite (fmap_no_match _ _ H).
  by rewrite <- app_assoc.
Qed.

Lemma terminate_last_snoc (init : list pystr) (x : pystr) :
  (if negb (bool_decide (init ++ [x] = []))
      && negb (endswith (last_line (init ++ [x])) [LF])
   then <[length (init ++ [x]) - 1 := last_line (init ++ [x]) ++ [LF]]> (init ++ [x])
   else init ++ [x])
  = init ++ [terminated x].
Proof.
  unfold last_line, terminated. rewrite last_snoc, length_app. simpl.
  replace (length init + 1 - 1) with (length init) by lia.
  rewrite bool_decide_false by (by destruct init).
  simpl. destruct (endswith x [LF]); simpl; [done|].
  rewrite insert_app_r_alt by lia. by rewrite Nat.sub_diag.
Qed.

Lemma is_match_terminated (l : pystr) : is_match (terminated l) = is_match l.
Proof. unfold terminated. destruct (endswith l [LF]); [done|apply is_match_snoc_LF]. Qed.

(** The shape of the result when nothing matched, by cases on the input. *)
Lemma update_not_found_nil (sf : pystr) :
  update_soundfont_in_lines [] sf = [marker; target_line sf].
Proof. reflexivity. Qed.

Lemma update_not_found_snoc (init : list pystr) (x sf : pystr) :
  count_if is_match (init ++ [x]) = 0 →
  update_soundfont_in_lines (init ++ [x]) sf =
    (init ++ [terminated x]) ++ [marker; target_line sf].
Proof. intros H. by rewrite update_not_found, terminate_last_snoc. Qed.

(** Every line of the input and what stands at its place in the result. *)
Lemma update_lookup (lines : list pystr) (sf : pystr) (i : nat) (l : pystr) :
  lines !! i = Some l →
  update_soundfont_in_lines lines sf !! i =
    Some (if 0 <? count_if is_match lines then replace_line (target_line sf) l
          else if bool_decide (i = length lines - 1) then terminated l else l).
Proof.
  intros Hi. destruct (0 <? count_if is_match lines) eqn:E.
  - apply Nat.ltb_lt in E. rewrite update_found by done.
    by rewrite list_lookup_fmap, Hi.
  - apply Nat.ltb_ge in E. assert (count_if is_match lines = 0) as E0 by lia.
    destruct lines as [|y lines _] using rev_ind; [done|].
    rewrite update_not_found_snoc by done. rewrite length_app. simpl.
    replace (length lines + 1 - 1) with (length lines) by lia.
    apply lookup_snoc_Some in Hi as [[Hlt Hi]|[-> ->]].
    + rewrite bool_decide_false by lia.
      by rewrite <- app_assoc, lookup_app_l, Hi.
    + rewrite bool_decide_true by done.
      by rewrite lookup_app_l, list_lookup_middle by (rewrite ?length_app; simpl; lia).
Qed.

Lemma update_length (lines : list pystr) (sf : pystr) :
  length (update_soundfont_in_lines lines sf) =
    if 0 <? count_if is_match lines then length lines else length lines + 2.
Proof.
  destruct (0 <? count_if is_match lines) eqn:E.
  - apply Nat.ltb_lt in E. by rewrite update_found, length_fmap.
  - apply Nat.ltb_ge in E. assert (count_if is_match lines = 0) as E0 by lia.
    destruct lines as [|y lines _] using rev_ind; [done|].
    rewrite update_not_found_snoc by done. rewrite !length_app. simpl. lia.
Qed.

(** Counting in the result of the replacement. *)
Lemma count_match_replaced (t : pystr) (lines : list pystr) :
  is_match t = true →
  count_if is_match (replace_line t <$> lines) = count_if is_match lines.
Proof.
  intros Ht. induction lines as [|l lines IH]; [done|].
  rewrite fmap_cons. simpl. rewrite IH. unfold replace_line.
  destruct (is_match l) eqn:E; by rewrite ?Ht, ?E.
Qed.


(** The matching lines of a result are the setting; there is at least one. *)
Lemma update_matches (lines : list pystr) (sf l : pystr) :
  l ∈ update_soundfont_in_lines lines sf → is_match l = true →
  l = target_line sf.
Proof.
  intros Hin Hm. apply list_elem_of_lookup in Hin as [i Hi].
  destruct (lines !! i) as [x|] eqn:Hx.
  - rewrite (update_lookup _ _ _ _ Hx) in Hi. injection Hi as <-.
    revert Hm. unfold replace_line.
    destruct (0 <? count_if is_match lines) eqn:E.
    + destruct (is_match x) eqn:Ex; [done|congruence].
    + apply Nat.ltb_ge in E.
      assert (is_match x = false) as Ex.
      { apply (count_if_zero is_match lines); [lia|]. by eapply list_elem_of_lookup_2. }
      case_bool_decide; rewrite ?is_match_terminated; congruence.
  - apply lookup_ge_None in Hx. apply lookup_lt_Some in Hi as Hlt.
    rewrite update_length in Hlt.
    destruct (0 <? count_if is_match lines) eqn:E; [lia|].
    apply Nat.ltb_ge in E. assert (count_if is_match lines = 0) as E0 by lia.
    rewrite update_not_found in Hi by done.
    rewrite lookup_app_r in Hi
      by (destruct (_ && _); rewrite ?length_insert; done).
    replace (length (if _ && _ then _ else _)) with (length lines) in Hi
      by (destruct (_ && _); rewrite ?length_insert; done).
    destruct (i - length lines) as [|[|n]]; simpl in Hi.
    + injection Hi as <-. by rewrite marker_no_match in Hm.
    + by injection Hi as <-.
    + done.
Qed.

Lemma update_match_count (lines : list pystr) (sf : pystr) :
  count_if is_match (update_soundfont_in_lines lines sf)
  = Nat.max 1 (count_if is_match lines).
Proof.
  destruct (count_if is_match lines) as [|n] eqn:E.
  - destruct lines as [|y lines _] using rev_ind; [done|].
    rewrite update_not_found_snoc by done.
    rewrite count_if_app in E. simpl in E.
    rewrite !count_if_app. simpl. rewrite is_match_terminated.
    destruct (is_match y); lia.
  - rewrite update_found by lia.
    rewrite count_match_replaced by apply target_is_match. lia.
Qed.


(** A document whose matching lines are all the setting, with at least
    one of them, is left as it is. *)
Lemma update_fixed (out : list pystr) (sf : pystr) :
  0 < count_if is_match out →
  (∀ l, l ∈ out → is_match l = true → l = target_line sf) →
  update_soundfont_in_lines out sf = out.
Proof.
  intros Hc H. rewrite update_found by done. clear Hc.
  induction out as [|x out IH]; [done|].
  rewrite fmap_cons, IH by (intros l Hl; apply H; by apply list_elem_of_further).
  unfold replace_line. destruct (is_match x) eqn:E; [|done].
  by rewrite (H x (list_elem_of_here _ _) E).
Qed.

Lemma update_idempotent (lines : list pystr) (sf : pystr) :
  update_soundfont_in_lines (update_soundfont_in_lines lines sf) sf
  = update_soundfont_in_lines lines sf.
Proof.
  apply update_fixed.
  - rewrite update_match_count. lia.
  - intros l. apply update_matches.
Qed.


Lemma join_snoc (ls : list pystr) (x : pystr) : join (ls ++ [x]) = join ls ++ x.
Proof. unfold join. rewrite concat_app. simpl. by rewrite app_nil_r. Qed.

Lemma update_not_found_tail (lines : list pystr) (sf : pystr) :
  count_if is_match lines = 0 →
  update_soundfont_in_lines lines sf !! length lines = Some marker
  ∧ update_soundfont_in_lines lines sf !! (length lines + 1)
    = Some (target_line sf).
Proof.
  intros H. rewrite update_not_found by done.
  set (kept := if _ && _ then _ else _).
  assert (length kept = length lines) as Hk
    by (unfold kept; destruct (_ && _); rewrite ?length_insert; done).
  rewrite <- Hk. split.
  - by rewrite lookup_app_r, Nat.sub_diag by lia.
  - rewrite lookup_app_r by lia.
    by replace (length kept + 1 - length kept) with 1 by lia.
Qed.

Lemma update_not_found_join (lines : list pystr) (sf : pystr) :
  count_if is_match lines = 0 →
  join (update_soundfont_in_lines lines sf) =
    join lines
    ++ (if negb (bool_decide (lines = [])) && negb (endswith (last_line lines) [LF])
        then [LF] else [])
    ++ marker ++ target_line sf.
Proof.
  intros H. destruct lines as [|x init _] using rev_ind.
  - rewrite update_not_found_nil. unfold join. simpl. by rewrite app_nil_r.
  - rewrite update_not_found_snoc by done.
    rewrite bool_decide_false by (by destruct init).
    unfold last_line. rewrite last_snoc. simpl.
    replace ((init ++ [terminated x]) ++ [marker; target_line sf])
      with (((init ++ [terminated x]) ++ [marker]) ++ [target_line sf])
      by (by rewrite <- !app_assoc).
    rewrite !join_snoc. unfold terminated.
    destruct (endswith x [LF]); simpl; by rewrite <- ?app_assoc.
Qed.

Lemma marker_not_target (sf : pystr) : marker ≠ target_line sf.
Proof. intros E. pose proof marker_no_match as M. by rewrite E in M. Qed.

Lemma update_not_found_target_count (lines : list pystr) (sf : pystr) :
  count_if is_match lines = 0 →
  count_if (λ l, bool_decide (l = target_line sf))
    (update_soundfont_in_lines lines sf) = 1.
Proof.
  intros H.
  assert (∀ ls, count_if is_match ls = 0 →
            count_if (λ l, bool_decide (l = target_line sf)) ls = 0) as Z.
  { intros ls Hls. apply count_if_zero. intros y Hy.
    apply bool_decide_eq_false. intros ->.
    assert (is_match (target_line sf) = false) as C; [|done].
    by apply (count_if_zero is_match ls). }
  assert (count_if (λ l, bool_decide (l = target_line sf)) [marker; target_line sf]
          = 1) as T.
  { cbn [count_if].
    rewrite (bool_decide_true (target_line sf = target_line sf)) by done.
    by rewrite bool_decide_false by apply marker_not_target. }
  destruct lines as [|x init _] using rev_ind.
  - by rewrite update_not_found_nil.
  - rewrite update_not_found_snoc by done.
    rewrite count_if_app, T, Z; [done|].
    rewrite count_if_app in H |- *. simpl in *.
    rewrite is_match_terminated. lia.
Qed.

(** ** The claims on the merger *)


(** The other deviation from C1: when nothing matched, a last line
    without a newline is not kept verbatim. *)
Example merge_terminates_last_line :
  update_soundfont_in_lines [py "foo=1"] (py "/a.sf2")
  = [py "foo=1" ++ [LF]; marker; target_line (py "/a.sf2")].
Proof. reflexivity. Qed.






(** The example of the specification for a single commented match. *)
Example merge_commented_example :
  update_soundfont_in_lines
    [py "#soundfont=" ++ [LF]; py "foo=1" ++ [LF]] (py "/x/y.sf2")
  = [py "soundfont=" ++ [DQUOTE] ++ py "/x/y.sf2" ++ [DQUOTE; LF];
     py "foo=1" ++ [LF]].
Proof. reflexivity. Qed.

(** C4, as the specification states it, fails: with no matching line in
    the input, a last line without a newline is not preserved unchanged,
    and the blank separator and the comment are not two lines of the
    result but one element, so three elements are not appended. *)
Lemma merge_appends_last_line_changed :
  let lines := [py "volume=3" ++ [LF]; py "foo=1"] in
  let out := update_soundfont_in_lines lines (py "/a.sf2") in
  count_if is_match lines = 0
  ∧ lines !! 1 = Some (py "foo=1")
  ∧ out !! 1 ≠ Some (py "foo=1")
  ∧ out ≠ lines ++ [[LF]; py "# Set by configure_vlc_soundfont.py" ++ [LF];
                     target_line (py "/a.sf2")].
Proof. vm_compute. repeat split; discriminate. Qed.

(** C4 (amended).  With no matching line in the input, the result is the
    input followed by two elements: the marker, which reads as a blank
    separator line then a comment line, and the canonical line, the only
    one of the result.  Every input line stands at its place, unchanged,
    except that the last one has a newline appended when it had none; the
    text of the result is the text of the input, that newline if needed,
    the blank line, the comment and the setting. *)
Theorem merge_appends_when_absent (lines : list pystr) (sf : pystr) :
  count_if is_match lines = 0 →
  let out := update_soundfont_in_lines lines sf in
  length out = length lines + 2
  ∧ out !! length lines = Some marker
  ∧ out !! (length lines + 1) = Some (target_line sf)
  ∧ splitlines marker = [[LF]; py "# Set by configure_vlc_soundfont.py" ++ [LF]]
  ∧ count_if (λ l, bool_decide (l = target_line sf)) out = 1
  ∧ count_if is_match out = 1
  ∧ (∀ i l, lines !! i = Some l →
       out !! i = Some (if bool_decide (i = length lines - 1)
                        then terminated l else l))
  ∧ (∀ i l, lines !! i = Some l → endswith l [LF] = true → out !! i = Some l)
  ∧ join out =
      join lines
      ++ (if negb (bool_decide (lines = []))
             && negb (endswith (last_line lines) [LF])
          then [LF] else [])
      ++ [LF] ++ py "# Set by configure_vlc_soundfont.py" ++ [LF]
      ++ target_line sf.
Proof.
  intros H out. subst out.
  assert (∀ i l, lines !! i = Some l →
            update_soundfont_in_lines lines sf !! i
            = Some (if bool_decide (i = length lines - 1)
                    then terminated l else l)) as Hl.
  { intros i l Hi. by rewrite (update_lookup _ _ _ _ Hi), H. }
  destruct (update_not_found_tail lines sf H) as [Hm Ht].
  repeat split; try done.
  - by rewrite update_length, H.
  - by apply update_not_found_target_count.
  - rewrite update_match_count, H. done.
  - intros i l Hi He. rewrite (Hl _ _ Hi). unfold terminated. rewrite He.
    by destruct (bool_decide _).
  - rewrite update_not_found_join by done. done.
Qed.

Lemma merge_appends_when_absent_witness :
  let lines := [py "volume=3" ++ [LF]; py "foo=1"] in
  count_if is_match lines = 0
  ∧ update_soundfont_in_lines lines (py "/a.sf2") !! 2 = Some marker.
Proof.
  intros lines.
  assert (count_if is_match lines = 0) as H by reflexivity.
  split; [exact H|].
  destruct (merge_appends_when_absent lines (py "/a.sf2") H) as (_ & M & _).
  exact M.
Defined.

(** C5, as the specification states it, fails: the result for the empty
    input is not the three-element sequence. *)
Lemma merge_empty_not_three_elements :
  update_soundfont_in_lines [] (py "/a.sf2")
  ≠ [[LF]; py "# Set by configure_vlc_soundfont.py" ++ [LF];
     py "soundfont=" ++ [DQUOTE] ++ py "/a.sf2" ++ [DQUOTE; LF]].
Proof. vm_compute. discriminate. Qed.

(** C5 (amended).  For the empty input and the value [/a.sf2] the merge
    returns two elements, the marker (newline, comment, newline) and the
    canonical line; joined, they are the text of the three lines of the
    specification, and that text splits into these three lines. *)
Theorem merge_empty_input :
  let out := update_soundfont_in_lines [] (py "/a.sf2") in
  let three := [[LF]; py "# Set by configure_vlc_soundfont.py" ++ [LF];
                py "soundfont=" ++ [DQUOTE] ++ py "/a.sf2" ++ [DQUOTE; LF]] in
  out = [[LF] ++ py "# Set by configure_vlc_soundfont.py" ++ [LF];
         py "soundfont=" ++ [DQUOTE] ++ py "/a.sf2" ++ [DQUOTE; LF]]
  ∧ join out = join three
  ∧ splitlines (join out) = three.
Proof. vm_compute. done. Qed.

(** C10, as stated, fails: a spaced comment that is the last line,
    without a newline, of a document with no match is not kept verbatim. *)
Lemma spaced_comment_last_line_changed :
  update_soundfont_in_lines [py "# soundfont=x"] (py "/a.sf2") !! 0
  ≠ Some (py "# soundfont=x").
Proof. vm_compute. discriminate. Qed.

(** C10 (amended).  A line that, stripped, starts with [#] but not with
    [#soundfont=] is not a match, and it stands at its place in the result
    unchanged, except in one case: when no line matched, the line is the
    last one and it has no final newline, a newline is appended to it
    (and it is still not a match). *)
Theorem spaced_comment_kept (lines : list pystr) (sf : pystr) (i : nat)
    (l : pystr) :
  lines !! i = Some l →
  startswith (lstrip l) (py "#") = true →
  is_commented l = false →
  is_match l = false
  ∧ is_match (terminated l) = false
  ∧ update_soundfont_in_lines lines sf !! i =
      Some (if (count_if is_match lines =? 0)
               && bool_decide (i = length lines - 1)
               && negb (endswith l [LF])
            then l ++ [LF] else l).
Proof.
  intros Hi Hs Hc.
  assert (is_match l = false) as Hm.
  { rewrite is_match_split, Hc, orb_false_r. unfold is_active.
    destruct (lstrip l) as [|c r]; [done|].
    simpl in Hs. apply andb_prop in Hs as [Hs _]. apply N.eqb_eq in Hs.
    by subst c. }
  split; [done|]. split; [by rewrite is_match_terminated|].
  rewrite (update_lookup _ _ _ _ Hi). unfold replace_line, terminated.
  rewrite Hm.
  destruct (count_if is_match lines) as [|n]; simpl; [|done].
  destruct (bool_decide _); simpl; [|done].
  by destruct (endswith l [LF]).
Qed.

Lemma spaced_comment_kept_witness :
  let lines := [py "# soundfont=old" ++ [LF]; py "soundfont=x" ++ [LF]] in
  update_soundfont_in_lines lines (py "/a.sf2") !! 0
  = Some (py "# soundfont=old" ++ [LF]).
Proof.
  intros lines.
  destruct (spaced_comment_kept lines (py "/a.sf2") 0 (py "# soundfont=old" ++ [LF]))
    as (_ & _ & H); [reflexivity|reflexivity|reflexivity|].
  exact H.
Defined.

End MergeSpec.

Module ConfigureSpec.
Import Monalisa.

Example run_on_example :
  let '(r, w) := example_run [py "D:"; py "Monalisa.sf2"] example_world in
  r = Ok [py "C:"; py "vlc"; py "vlcrc"]
  ∧ files w !! [py "C:"; py "vlc"; py "vlcrc"]
    = Some (utf8 (py "soundfont=" ++ [DQUOTE] ++ py "D:/Monalisa.sf2"
                    ++ [DQUOTE; LF] ++ py "foo=1" ++ [LF]))
  ∧ files w !! [py "C:"; py "vlc"; py "vlcrc.bak"]
    = Some (utf8 (py "#soundfont=" ++ [LF] ++ py "foo=1" ++ [LF]))
  ∧ oplog w = [OpMkdir [py "C:"; py "vlc"];
               OpRead [py "C:"; py "vlc"; py "vlcrc"];
               OpWrite [py "C:"; py "vlc"; py "vlcrc.bak"];
               OpRead [py "C:"; py "vlc"; py "vlcrc"];
               OpWrite [py "C:"; py "vlc"; py "vlcrc"]].
Proof. vm_compute. done. Qed.

(** *** Rules for triples *)

Lemma hoare_bind {A B} (P : World → Prop) (c : M A) (Q : A → World → Prop)
    (k : A → M B) (R : B → World → Prop) (E : World → Prop) :
  hoare P c Q E → (∀ a, hoare (Q a) (k a) R E) → hoare P (c ≫= k) R E.
Proof.
  intros Hc Hk w HP. unfold mbind, M_bind. specialize (Hc w HP).
  destruct (c w) as [[a|e] w']; [by apply Hk|done].
Qed.

Lemma hoare_weaken {A} (P P' : World → Prop) (c : M A)
    (Q Q' : A → World → Prop) (E E' : World → Prop) :
  hoare P c Q E →
  (∀ w, P' w → P w) → (∀ a w, Q a w → Q' a w) → (∀ w, E w → E' w) →
  hoare P' c Q' E'.
Proof.
  intros H HP HQ HE w Hw. specialize (H w (HP w Hw)).
  destruct (c w) as [[a|e] w']; auto.
Qed.

Lemma hoare_get {A} (P : World → Prop) (f : World → A) (E : World → Prop) :
  hoare P (get f) (λ a w, P w ∧ a = f w) E.
Proof. by intros w Hw. Qed.

Lemma hoare_ret {A} (P : World → Prop) (a : A) (Q : A → World → Prop)
    (E : World → Prop) :
  (∀ w, P w → Q a w) → hoare P (mret a) Q E.
Proof. intros H w Hw. by apply H. Qed.

Lemma hoare_raise {A} (P : World → Prop) (e : exn) (Q : A → World → Prop)
    (E : World → Prop) :
  (∀ w, P w → E w) → hoare P (raise e) Q E.
Proof. intros H w Hw. by apply H. Qed.

(** A fact that follows from the precondition alone can be used. *)
Lemma hoare_pure {A} (φ : Prop) (P : World → Prop) (c : M A)
    (Q : A → World → Prop) (E : World → Prop) :
  (∀ w, P w → φ) → (φ → hoare P c Q E) → hoare P c Q E.
Proof. intros Hφ H w Hw. apply H; eauto. Qed.

Lemma get_bind {A B} (f : World → A) (k : A → M B) (w : World) :
  (get f ≫= k) w = k (f w) w.
Proof. reflexivity. Qed.

Lemma modify_bind {B} (f : World → World) (k : unit → M B) (w : World) :
  (modify f ≫= k) w = k tt (f w).
Proof. reflexivity. Qed.

Lemma lift_bind {A B} (a : A) (k : A → M B) (w : World) :
  (lift (Ok a) ≫= k) w = k a w.
Proof. reflexivity. Qed.

Lemma ok_bind {A B} (c : M A) (k : A → M B) (w w' : World) (a : A) :
  c w = (Ok a, w') → (c ≫= k) w = k a w'.
Proof. intros H. unfold mbind, M_bind. by rewrite H. Qed.

Lemma keeps_bind {A B} (I : World → Prop) (c : M A) (k : A → M B) :
  keeps I c → (∀ a, keeps I (k a)) → keeps I (c ≫= k).
Proof. intros Hc Hk. by eapply hoare_bind. Qed.

Lemma keeps_ret {A} (I : World → Prop) (a : A) : keeps I (mret a).
Proof. by intros w Hw. Qed.

Lemma keeps_raise {A} (I : World → Prop) (e : exn) : keeps I (raise (A:=A) e).
Proof. by intros w Hw. Qed.

Lemma keeps_lift {A} (I : World → Prop) (r : res A) : keeps I (lift r).
Proof. intros w Hw. by destruct r. Qed.

Lemma keeps_get {A} (I : World → Prop) (f : World → A) : keeps I (get f).
Proof. by intros w Hw. Qed.

Lemma keeps_modify (I : World → Prop) (f : World → World) :
  (∀ w, I w → I (f w)) → keeps I (modify f).
Proof. intros H w Hw. by apply H. Qed.

Lemma keeps_world {A} (I : World → Prop) (c : M A) (w : World) :
  keeps I c → I w → I (snd (c w)).
Proof. intros H Hw. specialize (H w Hw). by destruct (c w) as [[a|e] w']. Qed.

(** *** What a run keeps: the environment and every file it does not write *)

Section Frame.

Variable env : gmap pystr pystr.
Variable p : path.
Variable v : option (list Byte.byte).

Local Abbreviation I := (file_is env p v).

Lemma keeps_log (op : fsop) : keeps I (modify (log op)).
Proof. apply keeps_modify. by intros w [??]. Qed.

Lemma keeps_add_dirs (ps : list path) : keeps I (modify (add_dirs ps)).
Proof. apply keeps_modify. by intros w [??]. Qed.

Lemma keeps_set_file (q : path) (data : list Byte.byte) :
  q ≠ p → keeps I (modify (set_file q data)).
Proof.
  intros Hq. apply keeps_modify. intros w [??]. split; [done|].
  simpl. by rewrite lookup_insert_ne.
Qed.

Lemma keeps_mkdir_parents (q : path) : keeps I (mkdir_parents q).
Proof.
  unfold mkdir_parents. apply keeps_bind; [apply keeps_log|intros _].
  apply keeps_bind; [apply keeps_get|intros blocked].
  destruct blocked as [l|]; [|apply keeps_add_dirs].
  case_bool_decide; apply keeps_raise.
Qed.

Lemma keeps_read_bytes (q : path) : keeps I (read_bytes q).
Proof.
  unfold read_bytes. apply keeps_bind; [apply keeps_log|intros _].
  apply keeps_bind; [apply keeps_get|intros content].
  destruct content; [apply keeps_ret|].
  apply keeps_bind; [apply keeps_get|intros d].
  destruct d; apply keeps_raise.
Qed.

Lemma keeps_open_w (q : path) : q ≠ p → keeps I (open_w q).
Proof.
  intros Hq. unfold open_w. apply keeps_bind; [apply keeps_log|intros _].
  apply keeps_bind; [apply keeps_get|intros d].
  destruct d; [apply keeps_raise|].
  apply keeps_bind; [apply keeps_get|intros pd].
  destruct pd; [by apply keeps_set_file|apply keeps_raise].
Qed.

Lemma keeps_write_bytes (q : path) (data : list Byte.byte) :
  q ≠ p → keeps I (write_bytes q data).
Proof.
  intros Hq. unfold write_bytes.
  apply keeps_bind; [by apply keeps_open_w|intros _]. by apply keeps_set_file.
Qed.

End Frame.

(** *** Directories made by [mkdir] *)

Lemma find_existsb {A} (f : A → bool) (l : list A) :
  existsb f l = false → find f l = None.
Proof.
  induction l as [|x l IH]; [done|]. simpl.
  destruct (f x); [done|]. exact IH.
Qed.

Lemma mkdir_parents_ok (q : path) (w : World) :
  existsb (is_file w) (ancestors_and_self q) = false →
  mkdir_parents q w
  = (Ok tt, add_dirs (ancestors_and_self q) (log (OpMkdir q) w)).
Proof.
  intros H. unfold mkdir_parents, mbind, M_bind, modify, get. simpl.
  change (find (is_file (log (OpMkdir q) w))) with (find (is_file w)).
  by rewrite (find_existsb _ _ H).
Qed.

Lemma self_in_ancestors (q : path) : q ≠ [] → q ∈ ancestors_and_self q.
Proof.
  intros Hq. apply list_elem_of_In, in_map_iff. exists (length q). split.
  - apply firstn_all.
  - apply in_seq. destruct q; [done|simpl; lia].
Qed.

Lemma ancestors_length (x q : path) :
  x ∈ ancestors_and_self q → length x ≤ length q.
Proof.
  intros H. apply list_elem_of_In, in_map_iff in H as (n & <- & _).
  rewrite length_take. lia.
Qed.

Lemma read_bytes_file (q : path) (data : list Byte.byte) (w : World) :
  files w !! q = Some data → read_bytes q w = (Ok data, log (OpRead q) w).
Proof.
  intros H. unfold read_bytes. rewrite modify_bind, get_bind. simpl. by rewrite H.
Qed.

Lemma write_bytes_file (q : path) (data : list Byte.byte) (w : World) :
  is_dir w q = false → is_dir w (removelast q) = true →
  write_bytes q data w
  = (Ok tt, set_file q data (set_file q [] (log (OpWrite q) w))).
Proof.
  intros Hd Hp. unfold write_bytes, open_w.
  rewrite (ok_bind _ _ w (set_file q [] (log (OpWrite q) w)) tt); [done|].
  rewrite modify_bind, get_bind.
  replace (is_dir (log (OpWrite q) w) q) with (is_dir w q) by done. rewrite Hd.
  rewrite get_bind.
  replace (is_dir (log (OpWrite q) w) (removelast q))
    with (is_dir w (removelast q)) by done.
  by rewrite Hp.
Qed.

Section Platform.

Variable Path_of_str : pystr → path.
Variable path_str : path → pystr.
Variable resolve : World → path → path.
Variable text_decode : list Byte.byte → pystr.
Variable text_encode : pystr → option (list Byte.byte).

Local Abbreviation configure :=
  (configure_vlc_soundfont Path_of_str path_str resolve text_decode text_encode).
Local Abbreviation vlcrc := (vlcrc_of Path_of_str).
Local Abbreviation backup := (backup_of Path_of_str).

(** The path of the backup: the same directory, the name followed by
    [.bak], for every path with a name. *)
Lemma rfind_lookup (c : N) (nm : pystr) (i : nat) :
  rfind c nm = Some i → nm !! i = Some c.
Proof.
  revert i. induction nm as [|x nm IH]; intros i; simpl; [done|].
  destruct (rfind c nm) as [j|].
  - intros [= <-]. by apply IH.
  - destruct (N.eqb_spec x c) as [->|]; [|done]. by intros [= <-].
Qed.

Lemma with_suffix_bak (q : path) :
  name q ≠ [] →
  with_suffix q (suffix q ++ py ".bak")
  = Ok (removelast q ++ [name q ++ py ".bak"]).
Proof.
  intros Hn. unfold with_suffix.
  assert (suffix q = []
          ∨ ∃ i r, suffix q = DOT :: r ∧ take i (name q) ++ DOT :: r = name q
                   ∧ i = length (name q) - length (DOT :: r)) as Hs.
  { unfold suffix. destruct (rfind DOT (name q)) as [i|] eqn:E; [|by left].
    destruct ((0 <? i) && (i <? length (name q) - 1)); [|by left].
    apply rfind_lookup in E. right.
    pose proof (lookup_lt_Some _ _ _ E) as Hlt.
    destruct (drop i (name q)) as [|c r] eqn:D.
    { apply (f_equal length) in D. rewrite length_drop in D. simpl in D. lia. }
    assert (c = DOT) as ->.
    { rewrite <- (take_drop i (name q)) in E.
      rewrite lookup_app_r, length_take, D in E by (rewrite length_take; lia).
      replace (i - i `min` length (name q)) with 0 in E by lia.
      by injection E. }
    exists i, r. split; [done|]. split.
    - by rewrite <- D, take_drop.
    - apply (f_equal length) in D. rewrite length_drop in D. lia. }
  destruct Hs as [->|(i & r & -> & Hnm & ->)].
  - change (negb (bool_decide ([] ++ py ".bak" = []))
            && negb (startswith ([] ++ py ".bak") [DOT])
            || bool_decide ([] ++ py ".bak" = [DOT])) with false.
    cbv iota. rewrite (bool_decide_false (name q = [])) by done.
    by rewrite (bool_decide_true ([] = [])).
  - rewrite (bool_decide_false (_ ++ _ = [])) by done.
    rewrite (bool_decide_false (_ ++ _ = [DOT])) by (by destruct r).
    change (startswith ((DOT :: r) ++ py ".bak") [DOT]) with true.
    change (negb false && negb true || false) with false. cbv iota.
    rewrite (bool_decide_false (name q = [])) by done.
    rewrite (bool_decide_false (DOT :: r = [])) by done.
    by rewrite app_assoc, Hnm.
Qed.

Lemma with_suffix_vlcrc (d : path) :
  with_suffix (joinpath d (py "vlcrc"))
    (suffix (joinpath d (py "vlcrc")) ++ py ".bak")
  = Ok (joinpath d (py "vlcrc.bak")).
Proof.
  unfold with_suffix, suffix, name, joinpath.
  rewrite last_snoc, removelast_last. reflexivity.
Qed.

Lemma vlcrc_not_backup (a : pystr) : backup a ≠ vlcrc a.
Proof.
  unfold backup_of, vlcrc_of, joinpath. intros H.
  apply app_inj_tail in H as [_ H]. discriminate H.
Qed.

Section ConfigureFrame.

Variable env : gmap pystr pystr.
Variable p : path.
Variable v : option (list Byte.byte).

Local Abbreviation I := (file_is env p v).

Lemma keeps_read_text (q : path) : keeps I (read_text text_decode q).
Proof.
  unfold read_text. apply keeps_bind; [apply keeps_read_bytes|intros data].
  apply keeps_ret.
Qed.

Lemma keeps_write_text (q : path) (text : pystr) :
  q ≠ p → keeps I (write_text text_encode q text).
Proof.
  intros Hq. unfold write_text.
  apply keeps_bind; [by apply keeps_open_w|intros _].
  destruct (text_encode text); [by apply keeps_set_file|apply keeps_raise].
Qed.

(** The backup is written only when it does not exist. *)
Lemma keeps_backup_file (d : path) :
  p ≠ joinpath d (py "vlcrc.bak") ∨ is_Some v →
  keeps I (backup_file (joinpath d (py "vlcrc"))).
Proof.
  intros Hp. unfold backup_file.
  apply keeps_bind; [apply keeps_get|intros ex].
  destruct ex; [|apply keeps_ret].
  rewrite with_suffix_vlcrc. intros w Hw. rewrite lift_bind. revert w Hw.
  eapply hoare_bind; [apply hoare_get|]. intros bex. simpl.
  destruct bex; simpl.
  { apply hoare_ret. by intros w [? _]. }
  destruct (decide (p = joinpath d (py "vlcrc.bak"))) as [->|Hne].
  - destruct Hp as [Hp|[data Hv]]; [done|]. subst v.
    intros w [[_ Hf] Hex]. exfalso.
    unfold path_exists, is_file in Hex. rewrite Hf in Hex.
    rewrite bool_decide_true in Hex by eauto. done.
  - eapply hoare_weaken with (P := I) (Q := λ _, I) (E := I);
      [|by intros w [? _]|done|done].
    apply keeps_bind; [apply keeps_read_bytes|intros data].
    by apply keeps_write_bytes.
Qed.

Lemma hoare_get_vlc_config_file :
  hoare I (get_vlc_config_file Path_of_str)
    (λ r w, I w ∧ ∃ a, env !! py "APPDATA" = Some a ∧ r = vlcrc a) I.
Proof.
  unfold get_vlc_config_file.
  eapply hoare_bind; [apply hoare_get|]. intros appdata. simpl.
  apply (hoare_pure (appdata = env !! py "APPDATA")).
  { intros w [[<- _] ->]. done. }
  intros Ha.
  eapply hoare_weaken
    with (P := I) (E := I)
         (Q := λ r w, I w ∧ ∃ a, env !! py "APPDATA" = Some a ∧ r = vlcrc a);
    [|by intros w [? _]|done|done].
  destruct appdata as [a|]; [|by apply hoare_raise].
  case_bool_decide; [by apply hoare_raise|].
  eapply hoare_bind; [apply keeps_mkdir_parents|]. intros [].
  apply hoare_ret. intros w Hw. split; [done|]. by exists a.
Qed.

(** The end of a run: the configuration file is read again, merged and
    written. *)
Lemma keeps_reread_and_write (q sf : path) :
  q ≠ p →
  keeps I
    (ex ← get (λ w, path_exists w q);
     lines ← (if ex : bool then
                text ← read_text text_decode q; mret (splitlines text)
              else mret []);
     resolved ← get (λ w, resolve w sf);
     let new_lines := update_soundfont_in_lines lines (path_str resolved) in
     write_text text_encode q (join new_lines) ;;
     mret q).
Proof.
  intros Hq.
  apply keeps_bind; [apply keeps_get|intros ex].
  apply keeps_bind.
  { destruct ex; [|apply keeps_ret].
    apply keeps_bind; [apply keeps_read_text|intros text]. apply keeps_ret. }
  intros lines.
  apply keeps_bind; [apply keeps_get|intros resolved].
  apply keeps_bind; [|intros _; apply keeps_ret].
  by apply keeps_write_text.
Qed.

(** A run keeps the environment and the content of every path other
    than the configuration file and, when there is none yet, its backup. *)
Lemma keeps_configure (sf : path) :
  (∀ a, env !! py "APPDATA" = Some a →
        p ≠ vlcrc a ∧ (p ≠ backup a ∨ is_Some v)) →
  keeps I (configure sf).
Proof.
  intros Hp. unfold configure_vlc_soundfont.
  apply keeps_bind; [apply keeps_get|intros isf].
  destruct isf; simpl; [|apply keeps_raise].
  eapply hoare_bind; [apply hoare_get_vlc_config_file|]. intros r. simpl.
  apply (hoare_pure (∃ a, env !! py "APPDATA" = Some a ∧ r = vlcrc a)).
  { by intros w [_ ?]. }
  intros (a & Ha & ->). destruct (Hp a Ha) as [Hv Hb].
  eapply hoare_weaken with (P := I) (Q := λ _, I) (E := I);
    [|by intros w [? _]|done|done].
  apply keeps_bind; [by apply keeps_backup_file|intros _].
  by apply keeps_reread_and_write.
Qed.

End ConfigureFrame.

(** The first run, from a world with a configuration file and no backup:
    the backup is written with the content of the configuration file. *)
Lemma first_run_backup (w : World) (a : pystr) (sf : path)
    (content : list Byte.byte) :
  environ w !! py "APPDATA" = Some a → a ≠ [] →
  is_file w sf = true →
  existsb (is_file w) (ancestors_and_self (joinpath (Path_of_str a) (py "vlc")))
    = false →
  files w !! vlcrc a = Some content →
  path_exists w (backup a) = false →
  file_is (environ w) (backup a) (Some content)
    (after_run Path_of_str path_str resolve text_decode text_encode sf w).
Proof.
  intros Henv Ha Hsf Hmk Hv Hb.
  set (J := file_is (environ w) (backup a) (Some content)).
  set (cd := joinpath (Path_of_str a) (py "vlc")) in *.
  set (w1 := add_dirs (ancestors_and_self cd) (log (OpMkdir cd) w)).
  assert (hoare (λ w', w' = w) (configure sf) (λ _, J) J) as H.
  { unfold configure_vlc_soundfont.
    eapply hoare_bind; [apply hoare_get|]. intros isf. simpl.
    apply (hoare_pure (isf = true)); [intros w' [-> ->]; done|]. intros ->. simpl.
    eapply hoare_weaken with (P := λ w', w' = w) (Q := λ _, J) (E := J);
      [|by intros w' [? _]|done|done].
    eapply (hoare_bind _ _ (λ r w', r = vlcrc a ∧ w' = w1)).
    - intros w' ->. unfold get_vlc_config_file. rewrite get_bind, Henv.
      rewrite bool_decide_false by done. fold cd.
      by rewrite (ok_bind _ _ _ _ _ (mkdir_parents_ok cd w Hmk)).
    - intros r. apply (hoare_pure (r = vlcrc a)); [by intros w' [? _]|]. intros ->.
      eapply (hoare_bind _ _ (λ _, J)).
      + intros w' [_ ->]. unfold backup_file. rewrite get_bind.
        assert (path_exists w1 (vlcrc a) = true) as ->.
        { unfold path_exists, is_file. simpl. rewrite Hv.
          by rewrite bool_decide_true by eauto. }
        unfold vlcrc_of. fold cd. rewrite with_suffix_vlcrc, lift_bind, get_bind.
        apply orb_false_elim in Hb as [Hbf Hbd].
        assert (is_dir w1 (joinpath cd (py "vlcrc.bak")) = false) as Hd1.
        { apply bool_decide_eq_false in Hbd. apply bool_decide_eq_false.
          intros [E|E]; [by destruct cd|].
          apply elem_of_union in E as [E|E]; [apply Hbd; by right|].
          apply elem_of_list_to_set, ancestors_length in E.
          unfold joinpath in E. rewrite length_app in E. simpl in E. lia. }
        assert (path_exists w1 (joinpath cd (py "vlcrc.bak")) = false) as ->.
        { unfold path_exists. rewrite Hd1. by rewrite orb_false_r. }
        change (negb false) with true. cbv iota.
        erewrite ok_bind by (apply read_bytes_file; exact Hv).
        rewrite write_bytes_file.
        * split; [done|]. simpl. apply lookup_insert_eq.
        * done.
        * replace (removelast (joinpath cd (py "vlcrc.bak"))) with cd
            by (unfold joinpath; by rewrite removelast_last).
          apply bool_decide_eq_true. right. simpl.
          apply elem_of_union_r, elem_of_list_to_set, self_in_ancestors.
          by destruct (Path_of_str a).
      + intros _. apply keeps_reread_and_write. apply not_eq_sym, vlcrc_not_backup. }
  specialize (H w eq_refl). unfold after_run.
  by destruct (configure sf w) as [[r|e] w'].
Qed.

Lemma later_runs_keep_backup (a : pystr) (content : list Byte.byte)
    (env : gmap pystr pystr) (later : list path) (w : World) :
  env !! py "APPDATA" = Some a →
  file_is env (backup a) (Some content) w →
  file_is env (backup a) (Some content)
    (after_runs Path_of_str path_str resolve text_decode text_encode later w).
Proof.
  intros Ha. revert w. induction later as [|sf later IH]; intros w Hw; [done|].
  simpl. apply IH. unfold after_run. apply keeps_world; [|done].
  apply keeps_configure. intros a' Ha'. assert (a' = a) as -> by congruence.
  split; [apply vlcrc_not_backup|right; eauto].
Qed.

(** C6.  When the SoundFont path is not a regular file, or [APPDATA] is
    unset (or empty), the operation raises, [FileNotFoundError] in the
    first case and [RuntimeError] otherwise, and the world is the one it
    started from: no file or directory has changed and no read, write or
    mkdir has been performed. *)
Theorem configure_fails_fast (sf : path) (w : World) :
  is_file w sf = false
  ∨ environ w !! py "APPDATA" = None
  ∨ environ w !! py "APPDATA" = Some [] →
  ∃ e, configure sf w = (Raise e, w)
       ∧ e = (if is_file w sf then RuntimeError else FileNotFoundError).
Proof.
  intros H. unfold configure_vlc_soundfont, get_vlc_config_file.
  unfold mbind, M_bind, get, raise. simpl.
  destruct (is_file w sf) eqn:F; simpl; [|by eexists].
  destruct H as [H|[H|H]]; [done|..]; rewrite H; simpl; by eexists.
Qed.

(** C7.  From a world in which the configuration file exists and its
    backup does not, the first run writes the backup with the content
    the configuration file had before the run, and touches no file other
    than the configuration file and that backup; after each of any number
    of later runs the backup still has that content. *)
Theorem backup_made_once (w : World) (a : pystr) (sf : path)
    (later : list path) (content : list Byte.byte) :
  environ w !! py "APPDATA" = Some a → a ≠ [] →
  is_file w sf = true →
  existsb (is_file w) (ancestors_and_self (joinpath (Path_of_str a) (py "vlc")))
    = false →
  files w !! vlcrc a = Some content →
  path_exists w (backup a) = false →
  let w1 := after_run Path_of_str path_str resolve text_decode text_encode sf w in
  files w1 !! backup a = Some content
  ∧ (∀ p, p ≠ backup a → p ≠ vlcrc a → files w1 !! p = files w !! p)
  ∧ (∀ n, files (after_runs Path_of_str path_str resolve text_decode
                   text_encode (take n later) w1) !! backup a
          = Some content).
Proof.
  intros Henv Ha Hsf Hmk Hv Hb w1.
  pose proof (first_run_backup w a sf content Henv Ha Hsf Hmk Hv Hb) as H1.
  fold w1 in H1. split; [apply H1|]. split.
  - intros p Hpb Hpv.
    assert (file_is (environ w) p (files w !! p) w1) as [_ H]; [|done].
    unfold w1, after_run. apply keeps_world; [|done]. apply keeps_configure.
    intros a' Ha'. assert (a' = a) as -> by congruence. by split; [|left].
  - intros n. by apply (later_runs_keep_backup a content (environ w)).
Qed.

End Platform.

Lemma configure_fails_fast_witness :
  ∃ e, example_run [py "E:"; py "none.sf2"] example_world
       = (Raise e, example_world)
       ∧ e = FileNotFoundError.
Proof.
  apply (configure_fails_fast simple_Path simple_str simple_resolve
           utf8_read utf8_write [py "E:"; py "none.sf2"] example_world).
  left. reflexivity.
Defined.

Lemma backup_made_once_witness :
  let sf := [py "D:"; py "Monalisa.sf2"] in
  files (after_runs simple_Path simple_str simple_resolve utf8_read
           utf8_write [sf]
           (after_run simple_Path simple_str simple_resolve utf8_read
              utf8_write sf example_world))
    !! [py "C:"; py "vlc"; py "vlcrc.bak"]
  = Some (utf8 (py "#soundfont=" ++ [LF] ++ py "foo=1" ++ [LF])).
Proof.
  intros sf.
  destruct (backup_made_once simple_Path simple_str simple_resolve
              utf8_read utf8_write example_world (py "C:") sf [sf]
              (utf8 (py "#soundfont=" ++ [LF] ++ py "foo=1" ++ [LF])))
    as (_ & _ & H); [reflexivity|discriminate|reflexivity..|].
  exact (H 1).
Defined.

End ConfigureSpec.

(** ** The patch orchestrator *)

Module OrchestratorSpec.
Import PatchVlc.

(** *** The order of the patches *)

Lemma str_leb_refl (a : pystr) : str_leb a a = true.
Proof.
  induction a as [|x a IH]; [done|]. simpl.
  by rewrite N.eqb_refl, IH, orb_true_r.
Qed.

Lemma str_leb_total (a b : pystr) : str_leb a b = false → str_leb b a = true.
Proof.
  revert b. induction a as [|x a IH]; intros [|y b]; simpl; try done.
  destruct (N.ltb_spec x y), (N.ltb_spec y x), (N.eqb_spec x y),
    (N.eqb_spec y x); simpl; try done; try lia. apply IH.
Qed.

Lemma str_leb_antisym (a b : pystr) :
  str_leb a b = true → str_leb b a = true → a = b.
Proof.
  revert b. induction a as [|x a IH]; intros [|y b]; simpl; try done.
  destruct (N.ltb_spec x y), (N.ltb_spec y x), (N.eqb_spec x y),
    (N.eqb_spec y x); simpl; try done; try lia.
  intros H1 H2. subst. f_equal. by apply IH.
Qed.

Lemma str_leb_trans (a b c : pystr) :
  str_leb a b = true → str_leb b c = true → str_leb a c = true.
Proof.
  revert b c. induction a as [|x a IH]; intros [|y b] [|z c]; simpl; try done.
  destruct (N.ltb_spec x y), (N.ltb_spec y z), (N.ltb_spec x z),
    (N.eqb_spec x y), (N.eqb_spec y z), (N.eqb_spec x z);
    simpl; try done; try lia.
  apply IH.
Qed.

Lemma path_leb_total (p q : path) : path_leb p q = false → path_leb q p = true.
Proof.
  revert q. induction p as [|x p IH]; intros [|y q]; simpl; try done.
  unfold str_eqb. repeat case_bool_decide; subst; try done.
  - apply IH.
  - apply str_leb_total.
Qed.

Lemma path_leb_trans (p q r : path) :
  path_leb p q = true → path_leb q r = true → path_leb p r = true.
Proof.
  revert q r. induction p as [|x p IH]; intros [|y q] [|z r]; simpl; try done.
  unfold str_eqb. repeat case_bool_decide; subst; try done.
  - apply IH.
  - intros H1 H2. destruct H. by apply str_leb_antisym.
  - apply str_leb_trans.
Qed.

#[local] Instance path_le_trans : Transitive path_le.
Proof. intros p q r. apply path_leb_trans. Qed.

(** Patches of one directory are ordered by their names. *)
Lemma path_leb_by_name (d : path) (a b : pystr) :
  path_leb (joinpath d a) (joinpath d b) = str_leb a b.
Proof.
  unfold joinpath. induction d as [|x d IH]; simpl.
  - unfold str_eqb. case_bool_decide; [subst; by rewrite str_leb_refl|done].
  - unfold str_eqb. by rewrite bool_decide_true.
Qed.

Lemma insert_sorted_Sorted (x : path) (l : list path) :
  Sorted path_le l → Sorted path_le (insert_sorted x l).
Proof.
  induction 1 as [|y l Hl IH Hhd]; simpl; [by repeat constructor|].
  destruct (path_leb x y) eqn:E.
  - constructor; [by constructor|]. by constructor.
  - constructor; [done|].
    apply path_leb_total in E.
    destruct Hhd as [|z l Hz]; simpl; [by constructor|].
    destruct (path_leb x z); by constructor.
Qed.


(** [sorted] returns its argument in order. *)
Lemma sorted_StronglySorted (l : list path) : StronglySorted path_le (sorted l).
Proof.
  apply Sorted_StronglySorted; [apply _|].
  induction l as [|x l IH]; simpl; [constructor|]. by apply insert_sorted_Sorted.
Qed.


Example sorted_example :
  sorted [[py "patches"; py "b.patch"]; [py "patches"; py "a.patch"];
          [py "patches"; py "c.patch"]]
  = [[py "patches"; py "a.patch"]; [py "patches"; py "b.patch"];
     [py "patches"; py "c.patch"]].
Proof. reflexivity. Qed.

(** *** Running commands *)

Section Run.

Context {World : Type} (host : Host World).

Implicit Types (st : @State World) (w : World).

Lemma commands_app (evs evs' : list event) :
  commands (evs ++ evs') = commands evs ++ commands evs'.
Proof. induction evs as [|[] evs IH]; simpl; by rewrite ?IH. Qed.

Lemma ask_bind {A B} (f : World → A) (k : A → Script B) st :
  (ask f ≫= k) st = k (f (world st)) st.
Proof. reflexivity. Qed.

Lemma emit_bind {B} (ev : event) (k : unit → Script B) st :
  (emit ev ≫= k) st = k tt (mkState (world st) (events st ++ [ev])).
Proof. reflexivity. Qed.

Lemma done_bind {A B} (c : Script A) (k : A → Script B) st st' (a : A) :
  c st = (Done a, st') → (c ≫= k) st = k a st'.
Proof. intros H. unfold mbind, Script_bind. by rewrite H. Qed.

Lemma exit_bind {A B} (c : Script A) (k : A → Script B) st st' (code : Z) :
  c st = (SysExit code, st') → (c ≫= k) st = (SysExit code, st').
Proof. intros H. unfold mbind, Script_bind. by rewrite H. Qed.

(** A command that returns 0 lets the run continue; any other status
    ends the run with that status. *)
Lemma run_ok (cmd : list pystr) (cwd : option path) st w :
  subprocess_run host cmd (option_map (host_str host) cwd) (world st)
    = (Returned 0, w) →
  run host cmd cwd st =
    (Done tt,
     mkState w (events st
                ++ [EvOut ([LF] ++ py "[RUN] " ++ join_sep (py " ") cmd);
                    EvRun cmd (option_map (host_str host) cwd)])).
Proof.
  intros H. unfold run, print. rewrite emit_bind.
  unfold subprocess, mbind, Script_bind. simpl. rewrite H. simpl.
  by rewrite <- app_assoc.
Qed.

Lemma run_fail (cmd : list pystr) (cwd : option path) st w (rc : Z) :
  subprocess_run host cmd (option_map (host_str host) cwd) (world st)
    = (Returned rc, w) →
  rc ≠ 0%Z →
  run host cmd cwd st =
    (SysExit rc,
     mkState w (events st
                ++ [EvOut ([LF] ++ py "[RUN] " ++ join_sep (py " ") cmd);
                    EvRun cmd (option_map (host_str host) cwd);
                    EvErr (py "[ERROR] Command failed: "
                           ++ error_str host cmd rc)])).
Proof.
  intros H Hrc. unfold run, print. rewrite emit_bind.
  unfold subprocess, mbind, Script_bind. simpl. rewrite H. simpl.
  destruct (Z.eqb_spec rc 0); [done|].
  unfold print_err, emit, sys_exit. simpl. by rewrite <- !app_assoc.
Qed.

(** The loop over the patches: those before the first failure are
    applied, the failing one ends the loop, the others are not started. *)
Lemma for_each_stops (repo_dir : path) (reverse : bool)
    (before after : list path) (p : path) (rc : Z) (w1 w2 : World) st :
  all_succeed host (apply_cmd host reverse <$> before)
    (Some (host_str host repo_dir)) (world st) = Some w1 →
  subprocess_run host (apply_cmd host reverse p)
    (Some (host_str host repo_dir)) w1 = (Returned rc, w2) →
  rc ≠ 0%Z →
  ∃ st', for_each (before ++ p :: after) (apply_patch host repo_dir reverse) st
         = (SysExit rc, st')
         ∧ world st' = w2
         ∧ commands (events st')
           = commands (events st) ++ (apply_cmd host reverse <$> (before ++ [p])).
Proof.
  revert st. induction before as [|q before IH]; intros st Hok Hrun Hrc.
  - simpl in Hok. injection Hok as <-. simpl.
    eexists. split; [|split].
    + apply exit_bind. unfold apply_patch, print. rewrite emit_bind.
      by apply run_fail.
    + done.
    + simpl. rewrite !commands_app. simpl. by rewrite app_nil_r.
  - rewrite fmap_cons in Hok. simpl in Hok.
    destruct (subprocess_run host (apply_cmd host reverse q)
                (Some (host_str host repo_dir)) (world st))
      as [[rc0|] w'] eqn:Hq; [|done].
    destruct (Z.eqb_spec rc0 0) as [->|]; [|done].
    set (st1 := mkState w'
                  ((events st ++ [EvOut (py "[INFO] Applying patch: " ++ name q)])
                   ++ [EvOut ([LF] ++ py "[RUN] "
                               ++ join_sep (py " ") (apply_cmd host reverse q));
                       EvRun (apply_cmd host reverse q)
                         (Some (host_str host repo_dir))])).
    destruct (IH st1 Hok Hrun Hrc) as (st' & Hfor & Hw & Hc).
    exists st'. split; [|split; [done|]].
    + simpl. rewrite (done_bind _ _ st st1 tt); [done|].
      unfold apply_patch, print. rewrite emit_bind. by apply run_ok.
    + rewrite Hc. unfold st1. cbn [events]. rewrite !commands_app.
      cbn [commands]. rewrite app_nil_r, <- app_comm_cons, fmap_cons.
      by rewrite <- app_assoc.
Qed.

(** C8.  When the sorted patch set is [before ++ p :: after], the
    patches of [before] apply and the command for [p] returns a status
    other than 0, [apply_patches] ends with [sys.exit] of that status; the
    commands started are those of [before] and of [p], in this order, and
    none for the patches of [after], which are the ones sorted after [p];
    whatever follows [apply_patches] is not run, so [main] ends with the
    same status. *)
Theorem failed_patch_stops_run (repo_dir patches_dir : path) (reverse : bool)
    (before after : list path) (p : path) (rc : Z) (w1 w2 : World) st :
  host_exists host (world st) patches_dir = true →
  sorted (host_glob host (world st) patches_dir) = before ++ p :: after →
  all_succeed host (apply_cmd host reverse <$> before)
    (Some (host_str host repo_dir)) (world st) = Some w1 →
  subprocess_run host (apply_cmd host reverse p)
    (Some (host_str host repo_dir)) w1 = (Returned rc, w2) →
  rc ≠ 0%Z →
  ∃ st', apply_patches host repo_dir patches_dir reverse st = (SysExit rc, st')
         ∧ world st' = w2
         ∧ commands (events st')
           = commands (events st) ++ (apply_cmd host reverse <$> (before ++ [p]))
         ∧ (∀ q, q ∈ after → path_le p q)
         ∧ (∀ q, q ∈ before → path_le q p)
         ∧ (∀ args st0 build_dir,
              main_prepare host args st0
                = (Done (repo_dir, patches_dir, build_dir), st) →
              reverse_patches args = reverse →
              main host args st0 = (SysExit rc, st')).
Proof.
  intros Hex Hs Hok Hrun Hrc.
  set (st1 := mkState (world st)
                (events st ++ [EvOut (py "[INFO] Applying patches from "
                                      ++ host_str host patches_dir)])).
  destruct (for_each_stops repo_dir reverse before after p rc w1 w2 st1 Hok Hrun Hrc)
    as (st' & Hfor & Hw & Hc).
  assert (apply_patches host repo_dir patches_dir reverse st = (SysExit rc, st'))
    as Happly.
  { unfold apply_patches. rewrite ask_bind, Hex.
    change (negb true) with false. cbv iota.
    rewrite ask_bind, Hs.
    destruct (before ++ p :: after) as [|x l] eqn:E; [by destruct before|].
    unfold print. by rewrite emit_bind. }
  pose proof (sorted_StronglySorted (host_glob host (world st) patches_dir)) as SS.
  rewrite Hs in SS.
  exists st'. split; [done|]. split; [done|]. split; [|split; [|split]].
  - rewrite Hc. unfold st1. simpl. rewrite commands_app. simpl.
    by rewrite app_nil_r.
  - intros q Hq. apply StronglySorted_app_1_r in SS.
    apply StronglySorted_inv in SS as [_ SS].
    by apply (proj1 (Forall_forall _ _) SS).
  - intros q Hq.
    apply (StronglySorted_app_1_elem_of _ _ _ _ _ SS Hq), list_elem_of_here.
  - intros args st0 build_dir Hprep <-. unfold main.
    rewrite (done_bind _ _ st0 st (repo_dir, patches_dir, build_dir)) by done.
    by apply exit_bind.
Qed.

(** C9.  When the patches directory does not exist, or holds no patch
    file, [apply_patches] starts no command, leaves the world as it is,
    prints one line and returns, so that what follows it is run: [main]
    goes on with the steps after it. *)
Theorem no_patches_is_noop (repo_dir patches_dir : path) (reverse : bool) st :
  host_exists host (world st) patches_dir = false
  ∨ host_glob host (world st) patches_dir = [] →
  ∃ st', apply_patches host repo_dir patches_dir reverse st = (Done tt, st')
         ∧ world st' = world st
         ∧ commands (events st') = commands (events st)
         ∧ (∃ line, events st' = events st ++ [EvOut line])
         ∧ (∀ args st0 build_dir,
              main_prepare host args st0
                = (Done (repo_dir, patches_dir, build_dir), st) →
              reverse_patches args = reverse →
              main host args st0 = main_finish host args repo_dir build_dir st').
Proof.
  intros H.
  assert (∃ line, apply_patches host repo_dir patches_dir reverse st
                  = (Done tt, mkState (world st) (events st ++ [EvOut line])))
    as [line Happly].
  { unfold apply_patches. rewrite ask_bind.
    destruct (host_exists host (world st) patches_dir) eqn:Hex; simpl.
    - destruct H as [H|H]; [done|]. rewrite ask_bind, H. simpl. by eexists.
    - by eexists. }
  eexists. split; [exact Happly|]. split; [done|]. split; [|split].
  - simpl. rewrite commands_app. simpl. by rewrite app_nil_r.
  - by exists line.
  - intros args st0 build_dir Hprep <-. unfold main.
    rewrite (done_bind _ _ st0 st (repo_dir, patches_dir, build_dir)) by done.
    by rewrite (done_bind _ _ _ _ _ Happly).
Qed.

End Run.

Lemma failed_patch_stops_run_witness :
  let host := example_host [py "patches/b.patch"] in
  ∃ st', apply_patches host [py "work"; py "vlc"] [py "patches"] false
           (mkState 0 []) = (SysExit 3, st')
         ∧ commands (events st')
           = [[py "git"; py "apply"; py "patches/a.patch"];
              [py "git"; py "apply"; py "patches/b.patch"]].
Proof.
  intros host.
  destruct (failed_patch_stops_run host [py "work"; py "vlc"] [py "patches"]
              false [[py "patches"; py "a.patch"]] [[py "patches"; py "c.patch"]]
              [py "patches"; py "b.patch"] 3 1 2 (mkState 0 []))
    as (st' & H & _ & C & _); [reflexivity..|discriminate|].
  exists st'. split; [exact H|exact C].
Defined.

Lemma no_patches_is_noop_witness :
  let host := example_host [] in
  ∃ st', apply_patches host [py "work"; py "vlc"] [py "missing"] false
           (mkState 0 []) = (Done tt, st')
         ∧ world st' = 0.
Proof.
  intros host.
  destruct (no_patches_is_noop host [py "work"; py "vlc"] [py "missing"] false
              (mkState 0 []))
    as (st' & H & W & _); [left; reflexivity|].
  exists st'. split; [exact H|exact W].
Defined.

(** A whole run on the example machine: the second patch fails, the
    third is not started and nothing is built. *)
Example main_on_example :
  let '(r, st) := main (example_host [py "patches/b.patch"]) example_args
                    (mkState 0 []) in
  r = SysExit 3
  ∧ commands (events st)
    = [[py "git"; py "fetch"; py "origin"];
       [py "git"; py "checkout"; py "master"];
       [py "git"; py "pull"; py "origin"; py "master"];
       [py "git"; py "apply"; py "patches/a.patch"];
       [py "git"; py "apply"; py "patches/b.patch"]].
Proof. vm_compute. done. Qed.

End OrchestratorSpec.

(** * Further properties of the code *)

(** ** The merger on every input *)

Module MergeMore.
Import Monalisa MergeSpec.

Lemma existsb_count (lines : list pystr) :
  existsb is_match lines = (0 <? count_if is_match lines).
Proof.
  induction lines as [|l lines IH]; [done|]. simpl.
  destruct (is_match l); [done|]. by rewrite IH.
Qed.

(** X1.  Merging twice with the same value is merging once, whatever the
    input: no match, one match or several. *)
Theorem merge_idempotent (lines : list pystr) (sf : pystr) :
  update_soundfont_in_lines (update_soundfont_in_lines lines sf) sf
  = update_soundfont_in_lines lines sf.
Proof. apply update_idempotent. Qed.

(** X2.  The merge never drops a line: the result has the length of the input
    when some line matched and two more elements otherwise, and the
    setting is always among its lines. *)
Theorem merge_length (lines : list pystr) (sf : pystr) :
  length (update_soundfont_in_lines lines sf)
  = (if existsb is_match lines then length lines else length lines + 2)
  ∧ target_line sf ∈ update_soundfont_in_lines lines sf.
Proof.
  split.
  - by rewrite update_length, existsb_count.
  - assert (0 < count_if is_match (update_soundfont_in_lines lines sf)) as H
      by (rewrite update_match_count; lia).
    destruct (decide (target_line sf ∈ update_soundfont_in_lines lines sf))
      as [|Hn]; [done|].
    exfalso. assert (count_if is_match (update_soundfont_in_lines lines sf) = 0);
      [|lia].
    apply count_if_zero. intros l Hl.
    destruct (is_match l) eqn:E; [|done].
    by rewrite (update_matches _ _ _ Hl E) in Hl.
Qed.

Lemma lstrip_spaces (ws l : pystr) :
  forallb isspace ws = true → lstrip (ws ++ l) = lstrip l.
Proof.
  induction ws as [|c ws IH]; [done|]. simpl.
  intros [Hc Hws]%andb_prop. rewrite Hc. by apply IH.
Qed.

(** X3.  An indented setting is a setting: whitespace before [soundfont=] or
    [#soundfont=], of any of the kinds [lstrip] removes, does not hide the
    line from the merge, which puts the canonical line, not indented, in
    its place. *)
Theorem indented_setting_replaced (lines : list pystr) (sf : pystr)
    (i : nat) (ws l : pystr) :
  forallb isspace ws = true →
  is_match l = true →
  lines !! i = Some (ws ++ l) →
  update_soundfont_in_lines lines sf !! i = Some (target_line sf).
Proof.
  intros Hws Hl Hi.
  assert (is_match (ws ++ l) = true) as Hm.
  { unfold is_match in *. cbv zeta in *. by rewrite lstrip_spaces. }
  rewrite (update_lookup _ _ _ _ Hi).
  assert (0 < count_if is_match lines) as Hc.
  { destruct (count_if is_match lines) eqn:E; [|lia].
    assert (is_match (ws ++ l) = false); [|congruence].
    apply (proj1 (count_if_zero is_match lines) E).
    by eapply list_elem_of_lookup_2. }
  apply Nat.ltb_lt in Hc. rewrite Hc. unfold replace_line. by rewrite Hm.
Qed.

Lemma indented_setting_replaced_witness :
  update_soundfont_in_lines
    [py "volume=3" ++ [LF]; [9%N; 32%N] ++ py "#soundfont=old" ++ [LF]]
    (py "/a.sf2") !! 1
  = Some (target_line (py "/a.sf2")).
Proof.
  apply (indented_setting_replaced _ _ 1 [9%N; 32%N] (py "#soundfont=old" ++ [LF]));
    reflexivity.
Defined.

(** X4.  The previous value plays no part: two documents of which the lines
    are, place by place, either equal or both settings (commented or not,
    with any value) merge to the same result. *)
Theorem merge_forgets_old_value (lines1 lines2 : list pystr) (sf : pystr) :
  Forall2 (λ a b, is_match a = true ∧ is_match b = true ∨ a = b) lines1 lines2 →
  update_soundfont_in_lines lines1 sf = update_soundfont_in_lines lines2 sf.
Proof.
  intros H.
  assert (count_if is_match lines1 = count_if is_match lines2
          ∧ replace_line (target_line sf) <$> lines1
            = replace_line (target_line sf) <$> lines2) as [Hc Hr].
  { induction H as [|a b l1 l2 Hab _ [IH1 IH2]]; [done|].
    rewrite !fmap_cons. simpl. rewrite IH1, IH2. unfold replace_line.
    destruct Hab as [ [Ha Hb] | Hab ]; [by rewrite Ha, Hb|by subst]. }
  destruct (count_if is_match lines1) as [|n] eqn:E.
  - rewrite (fmap_no_match _ lines1), (fmap_no_match _ lines2) in Hr by done.
    by subst.
  - rewrite !update_found by lia. done.
Qed.

Lemma merge_forgets_old_value_witness :
  update_soundfont_in_lines
    [py "#soundfont=" ++ [LF]; py "foo=1" ++ [LF]] (py "/a.sf2")
  = update_soundfont_in_lines
      [py "soundfont=/old/path.sf2" ++ [LF]; py "foo=1" ++ [LF]] (py "/a.sf2").
Proof.
  apply merge_forgets_old_value.
  constructor; [left; split; reflexivity|].
  constructor; [right; reflexivity|]. constructor.
Defined.

End MergeMore.

(** ** Splitting a text into lines and joining it again *)

Module TextMore.

Lemma endswith_snoc_eq (s : pystr) (x c : N) :
  endswith (s ++ [x]) [c] = (x =? c)%N.
Proof.
  unfold endswith. rewrite rev_app_distr. simpl. by rewrite andb_true_r.
Qed.

Lemma splitlines_from_body (cur body y : pystr) :
  no_linebreak body = true →
  splitlines_from cur (body ++ y) = splitlines_from (rev body ++ cur) y.
Proof.
  revert cur. induction body as [|c body IH]; intros cur H; [done|].
  simpl in H. apply andb_prop in H as [Hc H]. apply negb_true_iff in Hc.
  simpl. destruct (N.eqb_spec c CR) as [->|_]; [done|].
  rewrite Hc, IH by done. by rewrite <- app_assoc.
Qed.

(** One line at the head of a text. *)
Lemma splitlines_line (body term x : pystr) :
  no_linebreak body = true → terminator term x → body ++ term ≠ [] →
  splitlines (body ++ term ++ x) = (body ++ term) :: splitlines x.
Proof.
  intros Hb Ht Hne. unfold splitlines. rewrite splitlines_from_body by done.
  rewrite app_nil_r.
  destruct Ht as [[-> ->]|[->|(c & -> & Hc & Hcr)]].
  - rewrite app_nil_r in *. simpl.
    destruct (rev body) eqn:E.
    + apply (f_equal (@rev N)) in E. rewrite rev_involutive in E. done.
    + by rewrite <- E, rev_involutive, app_nil_r.
  - simpl. rewrite rev_involutive. by rewrite <- app_assoc.
  - simpl. destruct (N.eqb_spec c CR) as [->|_].
    + destruct x as [|c' x]; simpl; [by rewrite rev_involutive|].
      destruct (N.eqb_spec c' LF) as [->|_]; [by destruct Hcr|].
      by rewrite rev_involutive.
    + by rewrite Hc, rev_involutive.
Qed.

(** Every text that is not empty starts with a line. *)
Lemma line_decompose (s : pystr) :
  s ≠ [] →
  ∃ body term rest, s = body ++ term ++ rest ∧ no_linebreak body = true
                    ∧ terminator term rest ∧ body ++ term ≠ [].
Proof.
  induction s as [|c r IH]; [done|]. intros _.
  destruct (islinebreak c) eqn:Hc.
  - destruct (decide (c = CR ∧ head r = Some LF)) as [[-> Hr]|Hn].
    + destruct r as [|c' r']; [done|]. injection Hr as ->.
      exists [], [CR; LF], r'. repeat split; try done. right. by left.
    + exists [], [c], r. repeat split; try done.
      right. right. exists c. repeat split; try done. intros -> ?. by apply Hn.
  - destruct r as [|c' r'].
    + exists [c], [], []. repeat split; try done.
      * simpl. by rewrite Hc.
      * by left.
    + destruct IH as (body & term & rest & E & Hb & Ht & _); [done|].
      exists (c :: body), term, rest. repeat split; try done.
      * simpl. by rewrite E.
      * simpl. by rewrite Hc.
Qed.

Lemma splitlines_step (s : pystr) :
  s ≠ [] →
  ∃ body term rest, s = body ++ term ++ rest ∧ no_linebreak body = true
                    ∧ terminator term rest ∧ body ++ term ≠ []
                    ∧ splitlines s = (body ++ term) :: splitlines rest.
Proof.
  intros H. destruct (line_decompose s H) as (body & term & rest & E & Hb & Ht & Hne).
  exists body, term, rest. repeat split; try done.
  rewrite E. by apply splitlines_line.
Qed.

Lemma step_shorter (body term rest : pystr) :
  body ++ term ≠ [] → length rest < length (body ++ term ++ rest).
Proof.
  intros H. rewrite app_assoc, length_app.
  destruct (body ++ term); [done|simpl; lia].
Qed.

(** Induction on a text, line by line. *)
Lemma text_ind (P : pystr → Prop) :
  P [] →
  (∀ body term rest,
     no_linebreak body = true → terminator term rest → body ++ term ≠ [] →
     splitlines (body ++ term ++ rest) = (body ++ term) :: splitlines rest →
     P rest → P (body ++ term ++ rest)) →
  ∀ s, P s.
Proof.
  intros Hnil Hstep s.
  remember (length s) as n eqn:Hn. revert s Hn.
  induction n as [n IH] using lt_wf_ind. intros s ->.
  destruct (decide (s = [])) as [->|Hs]; [done|].
  destruct (splitlines_step s Hs) as (body & term & rest & -> & Hb & Ht & Hne & E).
  apply Hstep; try done.
  apply (IH (length rest)); [by apply step_shorter|done].
Qed.

(** Joining the lines of a text gives the text back. *)
Lemma join_splitlines (s : pystr) : join (splitlines s) = s.
Proof.
  induction s as [|body term rest Hb Ht Hne E IH] using text_ind; [done|].
  rewrite E. unfold join in *. simpl. by rewrite IH, <- app_assoc.
Qed.

Lemma splitlines_nil_iff (s : pystr) : splitlines s = [] ↔ s = [].
Proof.
  split; [|by intros ->]. intros H.
  rewrite <- (join_splitlines s). by rewrite H.
Qed.

Lemma splitlines_nonempty_lines (s l : pystr) : l ∈ splitlines s → l ≠ [].
Proof.
  revert l. induction s as [|body term rest Hb Ht Hne E IH] using text_ind;
    intros l Hl; [by apply elem_of_nil in Hl|].
  rewrite E in Hl. apply elem_of_cons in Hl as [->|Hl]; [done|by apply IH].
Qed.

Lemma head_app_nonempty (l k : pystr) : l ≠ [] → head (l ++ k) = head l.
Proof. by destruct l. Qed.

Lemma no_linebreak_snoc (a : pystr) (c : N) :
  no_linebreak (a ++ [c]) = true → islinebreak c = false.
Proof.
  unfold no_linebreak. rewrite forallb_app. simpl.
  intros [_ H]%andb_prop. by destruct (islinebreak c).
Qed.

(** What follows a line can change as long as a CR stays apart from an
    LF and the end of the text stays the end. *)
Lemma terminator_change (term rest rest' : pystr) :
  terminator term rest →
  (rest = [] → rest' = []) →
  (head rest' = Some LF → head rest = Some LF) →
  terminator term rest'.
Proof.
  intros [[-> ->]|[->|(c & -> & Hc & Hcr)]] Hnil Hhd.
  - left. by rewrite Hnil.
  - right. by left.
  - right. right. exists c. repeat split; try done.
    intros E H. by apply (Hcr E), Hhd.
Qed.

(** After a text that ends a line, the lines of what follows are those
    it has on its own. *)
Lemma splitlines_app_clean (a y : pystr) :
  clean_end a y → splitlines (a ++ y) = splitlines a ++ splitlines y.
Proof.
  revert y. induction a as [|body term rest Hb Ht Hne E IH] using text_ind;
    intros y Hc; [done|].
  destruct Hc as [Hc|(a' & c & Ha & Hc & Hcr)]; [by destruct body, term|].
  rewrite E. destruct (decide (rest = [])) as [->|Hrest].
  - rewrite app_nil_r in *. rewrite <- app_assoc. simpl.
    apply splitlines_line; [done| |done].
    destruct Ht as [[-> _]|[->|(c0 & -> & Hc0 & _)]].
    + rewrite app_nil_r in Ha. subst body.
      apply no_linebreak_snoc in Hb. congruence.
    + right. by left.
    + apply app_inj_tail in Ha as [_ ->].
      right. right. by exists c.
  - simpl. rewrite <- IH.
    + rewrite <- !app_assoc. apply splitlines_line; [done| |done].
      apply (terminator_change _ rest); [done|done|].
      by rewrite head_app_nonempty.
    + right. destruct rest as [|x rest' _] using rev_ind; [done|].
      rewrite !app_assoc in Ha. apply app_inj_tail in Ha as [_ ->].
      by exists rest', c.
Qed.

Lemma endswith_app_nonempty (a l : pystr) (c : N) :
  l ≠ [] → endswith (a ++ l) [c] = endswith l [c].
Proof.
  intros H. destruct l as [|x l _] using rev_ind; [done|].
  by rewrite app_assoc, !endswith_snoc_eq.
Qed.

Lemma endswith_inv (s : pystr) (c : N) :
  endswith s [c] = true → ∃ a, s = a ++ [c].
Proof.
  destruct s as [|x s _] using rev_ind; [done|].
  rewrite endswith_snoc_eq. intros ->%N.eqb_eq. by exists s.
Qed.

(** The last line of a text ends with a newline when the text does. *)
Lemma last_line_endswith (s : pystr) :
  s ≠ [] →
  endswith (Monalisa.last_line (splitlines s)) [LF] = endswith s [LF].
Proof.
  intros Hs. pose proof (join_splitlines s) as J.
  destruct (splitlines s) as [|l init _] eqn:E using rev_ind.
  { by apply splitlines_nil_iff in E. }
  unfold Monalisa.last_line. rewrite last_snoc. simpl.
  rewrite <- J. unfold join. rewrite concat_app. simpl. rewrite app_nil_r.
  symmetry. apply endswith_app_nonempty.
  apply (splitlines_nonempty_lines s). rewrite E.
  apply elem_of_app. right. apply list_elem_of_here.
Qed.

End TextMore.

(** ** The merge on the text of the file

    [configure_vlc_soundfont] splits the text it read into lines, merges
    and joins the result: these are the properties of that pipeline. *)

Module MergedText.
Import Monalisa MergeSpec TextMore.

Lemma no_match_lines (text : pystr) :
  (∀ l, l ∈ splitlines text → is_match l = false) ↔
  count_if is_match (splitlines text) = 0.
Proof. symmetry. apply count_if_zero. Qed.

(** A text whose matching lines are the setting. *)
Lemma text_fixed (text sf : pystr) :
  target_line sf ∈ splitlines text →
  (∀ l, l ∈ splitlines text → is_match l = true → l = target_line sf) →
  join (update_soundfont_in_lines (splitlines text) sf) = text.
Proof.
  intros Hin Hall. rewrite update_fixed; [apply join_splitlines| |done].
  destruct (count_if is_match (splitlines text)) eqn:E; [|lia].
  assert (is_match (target_line sf) = false); [|done].
  by apply (proj1 (count_if_zero is_match (splitlines text)) E).
Qed.

(** X5.  A text that already holds the setting, and no other line for the
    key, is given back as it is, character for character. *)
Theorem text_with_setting_unchanged (text sf : pystr) :
  target_line sf ∈ splitlines text →
  (∀ l, l ∈ splitlines text → is_match l = true → l = target_line sf) →
  join (update_soundfont_in_lines (splitlines text) sf) = text.
Proof. apply text_fixed. Qed.

Lemma text_with_setting_unchanged_witness :
  let text := py "foo=1" ++ [CR; LF] ++ target_line (py "/a.sf2") ++ py "bar" in
  join (update_soundfont_in_lines (splitlines text) (py "/a.sf2")) = text.
Proof.
  intros text. apply text_with_setting_unchanged.
  - vm_compute. apply list_elem_of_further, list_elem_of_here.
  - intros l Hl Hm. vm_compute in Hl.
    apply elem_of_cons in Hl as [->|Hl]; [discriminate Hm|].
    apply elem_of_cons in Hl as [->|Hl]; [reflexivity|].
    apply elem_of_cons in Hl as [->|Hl]; [discriminate Hm|].
    by apply elem_of_nil in Hl.
Defined.

(** A text without matching line. *)
Lemma text_extended (text sf : pystr) :
  (∀ l, l ∈ splitlines text → is_match l = false) →
  join (update_soundfont_in_lines (splitlines text) sf)
  = text
    ++ (if negb (bool_decide (text = [])) && negb (endswith text [LF])
        then [LF] else [])
    ++ [LF] ++ py "# Set by configure_vlc_soundfont.py" ++ [LF]
    ++ target_line sf.
Proof.
  intros H%no_match_lines. rewrite update_not_found_join by done.
  rewrite join_splitlines. f_equal.
  destruct (decide (text = [])) as [->|Hne]; [done|].
  rewrite last_line_endswith by done.
  rewrite (bool_decide_false (text = [])) by done.
  rewrite bool_decide_false; [done|]. by rewrite splitlines_nil_iff.
Qed.

(** X6.  A text with no line for the key is kept whole as the beginning of
    the new text; what is added after it is a newline if the text does
    not end with one (and is not empty), an empty line, the comment and
    the setting. *)
Theorem text_without_setting_extended (text sf : pystr) :
  (∀ l, l ∈ splitlines text → is_match l = false) →
  join (update_soundfont_in_lines (splitlines text) sf)
  = text
    ++ (if negb (bool_decide (text = [])) && negb (endswith text [LF])
        then [LF] else [])
    ++ [LF] ++ py "# Set by configure_vlc_soundfont.py" ++ [LF]
    ++ target_line sf.
Proof. apply text_extended. Qed.

Lemma text_without_setting_extended_witness :
  join (update_soundfont_in_lines (splitlines (py "foo=1")) (py "/a.sf2"))
  = py "foo=1" ++ [LF] ++ [LF] ++ py "# Set by configure_vlc_soundfont.py"
    ++ [LF] ++ target_line (py "/a.sf2").
Proof.
  apply (text_without_setting_extended (py "foo=1") (py "/a.sf2")).
  intros l Hl. vm_compute in Hl.
  apply elem_of_cons in Hl as [->|Hl]; [reflexivity|].
  by apply elem_of_nil in Hl.
Defined.

(** *** Splitting the merged text again *)

Section Replaced.

Variable t tb : pystr.
Hypothesis t_line : t = tb ++ [LF].
Hypothesis tb_plain : no_linebreak tb = true.
Hypothesis t_head : head t ≠ Some LF.

Lemma t_not_nil : t ≠ [].
Proof. rewrite t_line. by destruct tb. Qed.

Lemma replaced_head (rest : pystr) :
  head (join (replace_line t <$> splitlines rest)) = Some LF →
  head rest = Some LF.
Proof.
  destruct (decide (rest = [])) as [->|Hr]; [done|].
  destruct (splitlines_step rest Hr) as (b & tm & r & -> & _ & _ & Hne & ->).
  rewrite fmap_cons. unfold join. simpl. unfold replace_line at 1.
  destruct (is_match (b ++ tm)).
  - rewrite head_app_nonempty by apply t_not_nil. by intros ?%t_head.
  - rewrite app_assoc. by rewrite !(head_app_nonempty (b ++ tm)).
Qed.

(** When the replacement is one line, the lines of the joined result are
    the lines of the result. *)
Lemma splitlines_replaced (s : pystr) :
  splitlines (join (replace_line t <$> splitlines s))
  = replace_line t <$> splitlines s.
Proof.
  induction s as [|body term rest Hb Ht Hne E IH] using text_ind; [done|].
  rewrite E, fmap_cons. rewrite <- IH at 2.
  unfold join at 1. simpl. fold (join (replace_line t <$> splitlines rest)).
  unfold replace_line at 1 3. destruct (is_match (body ++ term)).
  - rewrite t_line, <- app_assoc. apply splitlines_line; [done| |by destruct tb].
    right. right. by exists LF.
  - rewrite <- app_assoc. apply splitlines_line; [done| |done].
    apply (terminator_change _ rest); [done| |apply replaced_head].
    by intros ->.
Qed.

End Replaced.

(** A newline added at the end of a text adds no line for the key. *)
Lemma newline_adds_no_match (s : pystr) :
  (∀ l, l ∈ splitlines s → is_match l = false) →
  ∀ l, l ∈ splitlines (s ++ [LF]) → is_match l = false.
Proof.
  induction s as [|body term rest Hb Ht Hne E IH] using text_ind; intros H l Hl.
  { vm_compute in Hl. apply elem_of_cons in Hl as [->|Hl]; [done|].
    by apply elem_of_nil in Hl. }
  rewrite E in H.
  assert (is_match (body ++ term) = false) as Hl0 by apply H, list_elem_of_here.
  assert (∀ l, l ∈ splitlines rest → is_match l = false) as Hrest
    by (intros ??; by apply H, list_elem_of_further).
  destruct (decide (rest = [])) as [->|Hr].
  - rewrite app_nil_r in Hl.
    assert (is_match [LF] = false) as HLF by done.
    destruct Ht as [[-> _]|[->|(c & -> & Hc & _)]].
    + rewrite app_nil_r in *.
      replace (body ++ [LF]) with (body ++ [LF] ++ []) in Hl by done.
      rewrite splitlines_line in Hl;
        [|done|right; right; by exists LF|by destruct body].
      apply elem_of_cons in Hl as [->|Hl]; [|by apply elem_of_nil in Hl].
      by rewrite is_match_snoc_LF.
    + rewrite <- app_assoc in Hl.
      rewrite splitlines_line in Hl; [|done|right; by left|done].
      apply elem_of_cons in Hl as [->|Hl]; [done|].
      vm_compute in Hl. apply elem_of_cons in Hl as [->|Hl]; [done|].
      by apply elem_of_nil in Hl.
    + destruct (decide (c = CR)) as [->|Hcr].
      * replace ((body ++ [CR]) ++ [LF]) with (body ++ [CR; LF] ++ []) in Hl
          by (by rewrite <- app_assoc).
        rewrite splitlines_line in Hl; [|done|right; by left|by destruct body].
        apply elem_of_cons in Hl as [->|Hl]; [|by apply elem_of_nil in Hl].
        replace (body ++ [CR; LF]) with ((body ++ [CR]) ++ [LF])
          by (by rewrite <- app_assoc).
        by rewrite is_match_snoc_LF.
      * rewrite <- app_assoc in Hl.
        rewrite splitlines_line in Hl;
          [|done|right; right; by exists c|done].
        apply elem_of_cons in Hl as [->|Hl]; [done|].
        vm_compute in Hl. apply elem_of_cons in Hl as [->|Hl]; [done|].
        by apply elem_of_nil in Hl.
  - rewrite <- !app_assoc in Hl. rewrite splitlines_line in Hl; [|done| |done].
    + apply elem_of_cons in Hl as [->|Hl]; [done|]. by apply IH.
    + apply (terminator_change _ rest); [done|done|].
      by rewrite head_app_nonempty.
Qed.

Lemma target_split (sf : pystr) :
  target_line sf = (py "soundfont=" ++ [DQUOTE] ++ sf ++ [DQUOTE]) ++ [LF].
Proof. unfold target_line. by rewrite <- !app_assoc. Qed.

Lemma target_plain (sf : pystr) :
  no_linebreak sf = true →
  no_linebreak (py "soundfont=" ++ [DQUOTE] ++ sf ++ [DQUOTE]) = true.
Proof.
  intros H. unfold no_linebreak in *. rewrite !forallb_app, H. reflexivity.
Qed.

(** The lines of the text that the merge appends. *)
Lemma splitlines_appended (sf : pystr) :
  no_linebreak sf = true →
  splitlines (marker ++ target_line sf)
  = [[LF]; py "# Set by configure_vlc_soundfont.py" ++ [LF]; target_line sf].
Proof.
  intros H. unfold marker.
  replace (([LF] ++ py "# Set by configure_vlc_soundfont.py" ++ [LF])
           ++ target_line sf)
    with ([] ++ [LF] ++ (py "# Set by configure_vlc_soundfont.py" ++ [LF]
                         ++ target_line sf))
    by (by rewrite <- !app_assoc).
  rewrite splitlines_line; [|done|right; right; by exists LF|done].
  rewrite splitlines_line; [|done|right; right; by exists LF|done].
  rewrite target_split.
  replace ((py "soundfont=" ++ [DQUOTE] ++ sf ++ [DQUOTE]) ++ [LF])
    with ((py "soundfont=" ++ [DQUOTE] ++ sf ++ [DQUOTE]) ++ [LF] ++ [])
    by (by rewrite app_nil_r).
  rewrite splitlines_line;
    [done|by apply target_plain|right; right; by exists LF|done].
Qed.

(** X7.  Running the pipeline on its own output changes nothing, for every
    text, provided the value holds no line boundary. *)
Theorem merged_text_idempotent (text sf : pystr) :
  no_linebreak sf = true →
  let merged := join (update_soundfont_in_lines (splitlines text) sf) in
  join (update_soundfont_in_lines (splitlines merged) sf) = merged.
Proof.
  intros Hsf merged. subst merged.
  destruct (count_if is_match (splitlines text)) as [|n] eqn:E.
  - pose proof (proj2 (no_match_lines text) E) as Hno.
    rewrite (text_extended text sf Hno).
    set (nl := if _ && _ then [LF] else []).
    assert (splitlines (text ++ nl ++ [LF]
                        ++ py "# Set by configure_vlc_soundfont.py" ++ [LF]
                        ++ target_line sf)
            = splitlines (text ++ nl)
              ++ [[LF]; py "# Set by configure_vlc_soundfont.py" ++ [LF];
                  target_line sf]) as Hsplit.
    { rewrite <- splitlines_appended by done. unfold marker.
      rewrite <- splitlines_app_clean; [by rewrite <- !app_assoc|].
      unfold nl. destruct (decide (text = [])) as [->|Hne]; [by left|].
      rewrite (bool_decide_false (text = [])) by done. simpl.
      right. destruct (endswith text [LF]) eqn:Hend; simpl.
      - apply endswith_inv in Hend as [a ->]. rewrite app_nil_r.
        by exists a, LF.
      - by exists text, LF. }
    assert (∀ l, l ∈ splitlines (text ++ nl) → is_match l = false) as Hpre.
    { unfold nl. destruct (_ && _); [by apply newline_adds_no_match|].
      by rewrite app_nil_r. }
    apply text_fixed; rewrite Hsplit.
    + rewrite !elem_of_app, !elem_of_cons. right. right. right. by left.
    + intros l Hl Hm. apply elem_of_app in Hl as [Hl|Hl].
      { by rewrite (Hpre l Hl) in Hm. }
      apply elem_of_cons in Hl as [->|Hl]; [done|].
      apply elem_of_cons in Hl as [->|Hl]; [done|].
      apply elem_of_cons in Hl as [->|Hl]; [done|].
      by apply elem_of_nil in Hl.
  - rewrite (update_found (splitlines text)) by lia.
    rewrite (splitlines_replaced _ _ (target_split sf)); [|by apply target_plain|done].
    rewrite <- (update_found (splitlines text)) by lia.
    by rewrite update_idempotent.
Qed.

Lemma merged_text_idempotent_witness :
  let text := py "a=1" ++ [CR] ++ py "#soundfont=x" ++ [11%N] ++ py "b" in
  let sf := py "/a.sf2" in
  join (update_soundfont_in_lines
          (splitlines (join (update_soundfont_in_lines (splitlines text) sf)))
          sf)
  = join (update_soundfont_in_lines (splitlines text) sf).
Proof.
  intros text sf. apply (merged_text_idempotent text sf). reflexivity.
Defined.

(** With a line boundary in the value the second run does change the
    text: the setting written by the first run is read back as two
    lines. *)
Example merged_text_value_with_newline :
  let sf := py "/a" ++ [LF] ++ py "b.sf2" in
  let merged := join (update_soundfont_in_lines [] sf) in
  join (update_soundfont_in_lines (splitlines merged) sf) ≠ merged.
Proof. vm_compute. discriminate. Qed.

End MergedText.

(** ** The backup, the location of the configuration file, whole runs *)

Module ConfigureMore.
Import Monalisa ConfigureSpec.

Lemma path_snoc (q : path) :
  name q ≠ [] → q = removelast q ++ [name q].
Proof.
  destruct q as [|x q _] using rev_ind; [done|]. intros _.
  unfold name. by rewrite removelast_last, last_snoc.
Qed.

Lemma backup_differs (q : path) :
  name q ≠ [] → removelast q ++ [name q ++ py ".bak"] ≠ q.
Proof.
  intros Hn E. rewrite (path_snoc q Hn) in E at 3.
  apply app_inj_tail in E as [_ E].
  apply (f_equal length) in E. rewrite length_app in E. simpl in E. lia.
Qed.

(** The cases in which there is nothing to copy. *)
Lemma backup_noop (q : path) (w : World) :
  path_exists w q = false
  ∨ name q ≠ []
    ∧ path_exists w (removelast q ++ [name q ++ py ".bak"]) = true →
  backup_file q w = (Ok tt, w).
Proof.
  intros [H|[Hn H]]; unfold backup_file; rewrite get_bind.
  - by rewrite H.
  - destruct (path_exists w q); [|done].
    rewrite with_suffix_bak by done. rewrite lift_bind, get_bind. by rewrite H.
Qed.

(** X8.  [backup_file] does nothing, and looks at no content, when there is
    nothing to back up or when the backup path already exists, be it as
    a file or as a directory. *)
Theorem backup_file_noop (q : path) (w : World) :
  path_exists w q = false
  ∨ name q ≠ []
    ∧ path_exists w (removelast q ++ [name q ++ py ".bak"]) = true →
  backup_file q w = (Ok tt, w).
Proof. apply backup_noop. Qed.

Lemma backup_file_noop_witness :
  backup_file [py "C:"; py "vlc"; py "other"] example_world
  = (Ok tt, example_world).
Proof. apply backup_file_noop. left. reflexivity. Defined.

(** The case in which the file is copied. *)
Lemma backup_copies (q : path) (w : World) (data : list Byte.byte) :
  name q ≠ [] →
  files w !! q = Some data →
  path_exists w (removelast q ++ [name q ++ py ".bak"]) = false →
  is_dir w (removelast q) = true →
  ∃ w', backup_file q w = (Ok tt, w')
        ∧ files w' = <[removelast q ++ [name q ++ py ".bak"] := data]> (files w)
        ∧ files w' !! q = Some data
        ∧ dirs w' = dirs w ∧ environ w' = environ w
        ∧ oplog w' = oplog w ++ [OpRead q;
                                 OpWrite (removelast q ++ [name q ++ py ".bak"])].
Proof.
  intros Hn Hq Hb Hd. set (bak := removelast q ++ [name q ++ py ".bak"]) in *.
  apply orb_false_elim in Hb as [Hbf Hbd].
  eexists. split; [|split; [|split; [|split; [|split]]]].
  - unfold backup_file. rewrite get_bind.
    assert (path_exists w q = true) as ->.
    { unfold path_exists, is_file. rewrite Hq.
      by rewrite bool_decide_true by eauto. }
    rewrite with_suffix_bak by done. fold bak. rewrite lift_bind, get_bind.
    assert (path_exists w bak = false) as ->.
    { unfold path_exists. by rewrite Hbf, Hbd. }
    change (negb false) with true. cbv iota.
    erewrite ok_bind by (by apply read_bytes_file).
    apply write_bytes_file; [done|].
    unfold bak. by rewrite removelast_last.
  - simpl. apply insert_insert_eq.
  - simpl. rewrite !lookup_insert_ne by (by apply backup_differs). done.
  - done.
  - done.
  - simpl. by rewrite <- app_assoc.
Qed.

(** X9.  [backup_file] on a file without backup: one read of the file and
    one write of its sibling named with [.bak] added, which then holds
    the content of the file; the file and everything else stay. *)
Theorem backup_file_copies (q : path) (w : World) (data : list Byte.byte) :
  name q ≠ [] →
  files w !! q = Some data →
  path_exists w (removelast q ++ [name q ++ py ".bak"]) = false →
  is_dir w (removelast q) = true →
  ∃ w', backup_file q w = (Ok tt, w')
        ∧ files w' = <[removelast q ++ [name q ++ py ".bak"] := data]> (files w)
        ∧ files w' !! q = Some data
        ∧ dirs w' = dirs w ∧ environ w' = environ w
        ∧ oplog w' = oplog w ++ [OpRead q;
                                 OpWrite (removelast q ++ [name q ++ py ".bak"])].
Proof. apply backup_copies. Qed.

Lemma backup_file_copies_witness :
  ∃ w', backup_file [py "C:"; py "vlc"; py "vlcrc"] example_world = (Ok tt, w')
        ∧ files w' !! [py "C:"; py "vlc"; py "vlcrc.bak"]
          = Some (utf8 (py "#soundfont=" ++ [LF] ++ py "foo=1" ++ [LF])).
Proof.
  destruct (backup_file_copies [py "C:"; py "vlc"; py "vlcrc"] example_world
              (utf8 (py "#soundfont=" ++ [LF] ++ py "foo=1" ++ [LF])))
    as (w' & H & F & _); [discriminate|reflexivity..|].
  exists w'. split; [exact H|]. rewrite F. apply lookup_insert_eq.
Defined.

(** X10.  [backup_file] tests that the path exists, not that it is a file: on
    a directory without backup it raises when it reads, and writes
    nothing. *)
Theorem backup_file_of_directory (q : path) (w : World) :
  name q ≠ [] →
  is_dir w q = true → is_file w q = false →
  path_exists w (removelast q ++ [name q ++ py ".bak"]) = false →
  backup_file q w = (Raise IsADirectoryError, log (OpRead q) w).
Proof.
  intros Hn Hd Hf Hb. unfold backup_file. rewrite get_bind.
  unfold path_exists at 1. rewrite Hd, orb_true_r.
  rewrite with_suffix_bak by done. rewrite lift_bind, get_bind, Hb.
  change (negb false) with true. cbv iota.
  unfold read_bytes, mbind, M_bind, modify, get, raise. simpl.
  apply bool_decide_eq_false in Hf.
  destruct (files w !! q) eqn:E; [destruct Hf; eauto|].
  replace (is_dir (log (OpRead q) w) q) with (is_dir w q) by done.
  by rewrite Hd.
Qed.

Lemma backup_file_of_directory_witness :
  backup_file [py "C:"; py "vlc"] example_world
  = (Raise IsADirectoryError, log (OpRead [py "C:"; py "vlc"]) example_world).
Proof. apply backup_file_of_directory; [discriminate|reflexivity..]. Defined.

Lemma update_not_found_nil_join (v : pystr) :
  join (update_soundfont_in_lines [] v) = marker ++ target_line v.
Proof. unfold join. simpl. by rewrite app_nil_r. Qed.

Lemma ret_bind {A B} (a : A) (k : A → M B) (w : World) :
  (mret a ≫= k) w = k a w.
Proof. reflexivity. Qed.

Lemma raise_bind {A B} (c : M A) (k : A → M B) (w w' : World) (e : exn) :
  c w = (Raise e, w') → (c ≫= k) w = (Raise e, w').
Proof. intros H. unfold mbind, M_bind. by rewrite H. Qed.

Lemma open_w_ok (q : path) (w : World) :
  is_dir w q = false → is_dir w (removelast q) = true →
  open_w q w = (Ok tt, set_file q [] (log (OpWrite q) w)).
Proof.
  intros Hd Hp. unfold open_w. rewrite modify_bind, get_bind.
  replace (is_dir (log (OpWrite q) w) q) with (is_dir w q) by done.
  rewrite Hd, get_bind.
  replace (is_dir (log (OpWrite q) w) (removelast q))
    with (is_dir w (removelast q)) by done.
  by rewrite Hp.
Qed.

Lemma is_dir_add_dirs (ps : list path) (w : World) (q : path) :
  is_dir (add_dirs ps w) q = is_dir w q || bool_decide (q ∈ ps).
Proof.
  unfold is_dir. simpl. apply eq_true_iff_eq.
  rewrite orb_true_iff, !bool_decide_eq_true, elem_of_union, elem_of_list_to_set.
  tauto.
Qed.

Lemma is_dir_dirs (w w' : World) (q : path) :
  dirs w = dirs w' → is_dir w q = is_dir w' q.
Proof. unfold is_dir. by intros ->. Qed.

Section Runs.

Variable Path_of_str : pystr → path.
Variable path_str : path → pystr.
Variable resolve : World → path → path.
Variable text_decode : list Byte.byte → pystr.
Variable text_encode : pystr → option (list Byte.byte).

Local Abbreviation configure :=
  (configure_vlc_soundfont Path_of_str path_str resolve text_decode text_encode).
Local Abbreviation vlcrc := (vlcrc_of Path_of_str).
Local Abbreviation backup := (backup_of Path_of_str).
Local Abbreviation config_dir a := (joinpath (Path_of_str a) (py "vlc")).

Lemma ancestors_snoc (q : path) (x : pystr) :
  ancestors_and_self (q ++ [x]) = ancestors_and_self q ++ [q ++ [x]].
Proof.
  unfold ancestors_and_self. rewrite length_app. simpl.
  rewrite seq_app, map_app. simpl. f_equal.
  - apply map_ext_in. intros n Hn. apply in_seq in Hn.
    rewrite take_app_le by lia. done.
  - rewrite take_ge; [done|]. rewrite length_app. simpl. lia.
Qed.

Lemma find_snoc {A} (f : A → bool) (l : list A) (y : A) :
  find f (l ++ [y])
  = match find f l with
    | Some x => Some x
    | None => if f y then Some y else None
    end.
Proof.
  induction l as [|x l IH]; [done|]. simpl. by destruct (f x).
Qed.

Lemma existsb_find {A} (f : A → bool) (l : list A) :
  existsb f l = true → ∃ x, find f l = Some x ∧ x ∈ l.
Proof.
  induction l as [|x l IH]; [done|]. simpl. destruct (f x); simpl.
  - intros _. exists x. split; [done|]. apply list_elem_of_here.
  - intros H. destruct (IH H) as (y & Hy & Hin). exists y. split; [done|].
    by apply list_elem_of_further.
Qed.

(** X11.  [get_vlc_config_file] with [APPDATA] set performs one [mkdir]
    and changes no file.  When [APPDATA] or a component above it is a
    file, it raises [NotADirectoryError]; when [APPDATA/vlc] itself is a
    file, it raises [FileExistsError]; nothing is made in both cases.
    Otherwise the path returned is [vlc/vlcrc] under [APPDATA]; the
    directory [vlc] and its ancestors are made directories, what was a
    directory stays one, and the configuration file itself is not
    created. *)
Theorem config_file_location (w : World) (a : pystr) :
  environ w !! py "APPDATA" = Some a → a ≠ [] →
  let '(r, w') := get_vlc_config_file Path_of_str w in
  files w' = files w
  ∧ environ w' = environ w
  ∧ oplog w' = oplog w ++ [OpMkdir (config_dir a)]
  ∧ if existsb (is_file w) (ancestors_and_self (Path_of_str a))
    then r = Raise NotADirectoryError ∧ dirs w' = dirs w
    else if is_file w (config_dir a)
    then r = Raise FileExistsError ∧ dirs w' = dirs w
    else r = Ok (vlcrc a)
         ∧ (∀ q, is_dir w' q = is_dir w q
                             || bool_decide (q ∈ ancestors_and_self (config_dir a)))
         ∧ is_dir w' (config_dir a) = true.
Proof.
  intros Henv Ha. unfold get_vlc_config_file. rewrite get_bind, Henv.
  rewrite bool_decide_false by done.
  unfold mkdir_parents, mbind, M_bind, modify, get, raise, mret, M_ret. simpl.
  set (cd := joinpath (Path_of_str a) (py "vlc")).
  change (find (is_file (log (OpMkdir cd) w))) with (find (is_file w)).
  unfold cd at 1, joinpath. rewrite ancestors_snoc, find_snoc.
  fold (joinpath (Path_of_str a) (py "vlc")). fold cd.
  destruct (existsb (is_file w) (ancestors_and_self (Path_of_str a))) eqn:E.
  - destruct (existsb_find _ _ E) as (q & -> & Hq).
    apply ancestors_length in Hq.
    rewrite bool_decide_false; [done|].
    intros ->. unfold cd, joinpath in Hq. rewrite length_app in Hq. simpl in Hq. lia.
  - rewrite (find_existsb _ _ E).
    destruct (is_file w cd) eqn:F.
    + by rewrite bool_decide_true by done.
    + repeat split; try done.
      * intros q. by rewrite is_dir_add_dirs.
      * rewrite is_dir_add_dirs. apply orb_true_intro. right.
        apply bool_decide_eq_true, self_in_ancestors.
        unfold cd, joinpath. by destruct (Path_of_str a).
Qed.

Lemma get_vlc_config_file_ok (w : World) (a : pystr) :
  environ w !! py "APPDATA" = Some a → a ≠ [] →
  existsb (is_file w) (ancestors_and_self (config_dir a)) = false →
  get_vlc_config_file Path_of_str w
  = (Ok (vlcrc a),
     add_dirs (ancestors_and_self (config_dir a))
       (log (OpMkdir (config_dir a)) w)).
Proof.
  intros Henv Ha Hmk. unfold get_vlc_config_file. rewrite get_bind, Henv.
  rewrite bool_decide_false by done.
  by rewrite (ok_bind _ _ _ _ _ (mkdir_parents_ok _ w Hmk)).
Qed.

Lemma read_text_file (q : path) (old : list Byte.byte) (w : World) :
  files w !! q = Some old →
  read_text text_decode q w = (Ok (text_decode old), log (OpRead q) w).
Proof.
  intros H. unfold read_text.
  by rewrite (ok_bind _ _ _ _ _ (read_bytes_file q old w H)).
Qed.

Lemma write_text_ok (q : path) (text : pystr) (data : list Byte.byte)
    (w : World) :
  is_dir w q = false → is_dir w (removelast q) = true →
  text_encode text = Some data →
  write_text text_encode q text w
  = (Ok tt, set_file q data (set_file q [] (log (OpWrite q) w))).
Proof.
  intros Hd Hp He. unfold write_text.
  rewrite (ok_bind _ _ _ _ _ (open_w_ok q w Hd Hp)). by rewrite He.
Qed.

Lemma write_text_unencodable (q : path) (text : pystr) (w : World) :
  is_dir w q = false → is_dir w (removelast q) = true →
  text_encode text = None →
  write_text text_encode q text w
  = (Raise UnicodeEncodeError, set_file q [] (log (OpWrite q) w)).
Proof.
  intros Hd Hp He. unfold write_text.
  rewrite (ok_bind _ _ _ _ _ (open_w_ok q w Hd Hp)). by rewrite He.
Qed.

(** The end of a run, from a world in which the configuration file can
    be opened for writing. *)
Lemma reread_and_write_run (q sf r : path) (w : World) :
  is_dir w q = false → is_dir w (removelast q) = true →
  (∀ w', resolve w' sf = r) →
  let text :=
    join (update_soundfont_in_lines
            (match files w !! q with
             | Some old => splitlines (text_decode old)
             | None => []
             end) (path_str r)) in
  let opened :=
    set_file q [] (log (OpWrite q)
                     (if is_file w q then log (OpRead q) w else w)) in
  (ex ← get (λ w, path_exists w q);
   lines ← (if ex : bool then
              text ← read_text text_decode q; mret (splitlines text)
            else mret []);
   resolved ← get (λ w, resolve w sf);
   let new_lines := update_soundfont_in_lines lines (path_str resolved) in
   write_text text_encode q (join new_lines) ;;
   mret q) w
  = match text_encode text with
    | Some data => (Ok q, set_file q data opened)
    | None => (Raise UnicodeEncodeError, opened)
    end.
Proof.
  intros Hd Hp Hr text opened. subst text opened. rewrite get_bind.
  unfold path_exists. rewrite Hd, orb_false_r.
  destruct (files w !! q) as [old|] eqn:Hq.
  - assert (is_file w q = true) as ->
      by (unfold is_file; rewrite Hq; by apply bool_decide_eq_true).
    rewrite (ok_bind _ _ w (log (OpRead q) w) (splitlines (text_decode old)));
      last first.
    { by rewrite (ok_bind _ _ _ _ _ (read_text_file q old w Hq)). }
    rewrite get_bind, Hr. cbv zeta.
    destruct (text_encode _) as [data|] eqn:He.
    + by rewrite (ok_bind _ _ _ _ _
                    (write_text_ok q _ data (log (OpRead q) w) Hd Hp He)).
    + by rewrite (raise_bind _ _ _ _ _
                    (write_text_unencodable q _ (log (OpRead q) w) Hd Hp He)).
  - assert (is_file w q = false) as ->
      by (unfold is_file; rewrite Hq; apply bool_decide_eq_false; by intros [??]).
    rewrite ret_bind, get_bind, Hr. cbv zeta.
    destruct (text_encode _) as [data|] eqn:He.
    + by rewrite (ok_bind _ _ _ _ _ (write_text_ok q _ data w Hd Hp He)).
    + by rewrite (raise_bind _ _ _ _ _ (write_text_unencodable q _ w Hd Hp He)).
Qed.

Lemma vlcrc_parts (a : pystr) :
  name (vlcrc a) = py "vlcrc" ∧ removelast (vlcrc a) = config_dir a
  ∧ removelast (vlcrc a) ++ [name (vlcrc a) ++ py ".bak"] = backup a.
Proof.
  unfold vlcrc_of, backup_of, joinpath, name.
  by rewrite last_snoc, removelast_last.
Qed.

Lemma is_dir_below (a : pystr) (w : World) (q : path) :
  length (config_dir a) < length q →
  is_dir (add_dirs (ancestors_and_self (config_dir a))
            (log (OpMkdir (config_dir a)) w)) q
  = is_dir w q.
Proof.
  intros H. rewrite is_dir_add_dirs.
  rewrite (bool_decide_false (q ∈ _)); [by rewrite orb_false_r|].
  intros Hin%ancestors_length. lia.
Qed.

(** The backup step of a run, when the configuration path is not a
    directory: it succeeds, leaves the configuration file and the
    directories as they are, and the backup path holds what it held, or
    the content of the configuration file when it did not exist. *)
Lemma backup_step (a : pystr) (w : World) :
  is_dir w (vlcrc a) = false →
  let w1 := add_dirs (ancestors_and_self (config_dir a))
              (log (OpMkdir (config_dir a)) w) in
  ∃ w2, backup_file (vlcrc a) w1 = (Ok tt, w2)
        ∧ files w2 !! vlcrc a = files w !! vlcrc a
        ∧ files w2 !! backup a
          = (if path_exists w (backup a) then files w !! backup a
             else files w !! vlcrc a)
        ∧ dirs w2 = dirs w1.
Proof.
  intros Hvd w1.
  destruct (vlcrc_parts a) as (Hname & Hparent & Hbak).
  assert (length (config_dir a) < length (vlcrc a)) as Hlv
    by (unfold vlcrc_of, joinpath; rewrite !length_app; simpl; lia).
  assert (length (config_dir a) < length (backup a)) as Hlb
    by (unfold backup_of, joinpath; rewrite !length_app; simpl; lia).
  assert (path_exists w1 (backup a) = path_exists w (backup a)) as Hpb
    by (unfold path_exists, w1; by rewrite is_dir_below).
  destruct (files w !! vlcrc a) as [old|] eqn:Hv.
  - destruct (path_exists w (backup a)) eqn:Hb.
    + exists w1. rewrite backup_noop; [done|].
      right. rewrite Hbak, Hname. by split.
    + destruct (backup_copies (vlcrc a) w1 old) as (w2 & H & Hf & Hq & Hd & _).
      * by rewrite Hname.
      * done.
      * by rewrite Hbak, Hpb.
      * rewrite Hparent. unfold w1. rewrite is_dir_add_dirs.
        apply orb_true_intro. right. apply bool_decide_eq_true, self_in_ancestors.
        unfold joinpath. by destruct (Path_of_str a).
      * exists w2. rewrite Hbak in Hf. repeat split; try done.
        rewrite Hf. apply lookup_insert_eq.
  - exists w1. rewrite backup_noop.
    + repeat split; try done. simpl.
      destruct (path_exists w (backup a)) eqn:Hb; [done|].
      apply orb_false_elim in Hb as [Hb _].
      apply bool_decide_eq_false in Hb.
      destruct (files w !! backup a) eqn:E; [destruct Hb; eauto|done].
    + left. unfold path_exists. unfold w1 at 2. rewrite is_dir_below, Hvd by done.
      rewrite orb_false_r. apply bool_decide_eq_false. simpl. rewrite Hv.
      by intros [??].
Qed.

(** A whole run, from a world in which the SoundFont is a file, the
    directory can be made and the configuration path is not a directory. *)
Lemma configure_run (w : World) (a : pystr) (sf r : path) :
  is_file w sf = true →
  environ w !! py "APPDATA" = Some a → a ≠ [] →
  existsb (is_file w) (ancestors_and_self (config_dir a)) = false →
  is_dir w (vlcrc a) = false →
  (∀ w', resolve w' sf = r) →
  let text :=
    join (update_soundfont_in_lines
            (match files w !! vlcrc a with
             | Some old => splitlines (text_decode old)
             | None => []
             end) (path_str r)) in
  ∃ w2 : World,
    files w2 !! vlcrc a = files w !! vlcrc a
    ∧ files w2 !! backup a
      = (if path_exists w (backup a) then files w !! backup a
         else files w !! vlcrc a)
    ∧ configure sf w
      = let opened :=
          set_file (vlcrc a) []
            (log (OpWrite (vlcrc a))
               (if is_file w2 (vlcrc a) then log (OpRead (vlcrc a)) w2 else w2)) in
        match text_encode text with
        | Some data => (Ok (vlcrc a), set_file (vlcrc a) data opened)
        | None => (Raise UnicodeEncodeError, opened)
        end.
Proof.
  intros Hsf Henv Ha Hmk Hvd Hr text.
  destruct (backup_step a w Hvd) as (w2 & Hb & Hfv & Hfb & Hd).
  exists w2. split; [done|]. split; [done|].
  unfold configure_vlc_soundfont. rewrite get_bind, Hsf.
  change (negb true) with false. cbv iota.
  rewrite (ok_bind _ _ _ _ _ (get_vlc_config_file_ok w a Henv Ha Hmk)).
  rewrite (ok_bind _ _ _ _ _ Hb).
  destruct (vlcrc_parts a) as (_ & Hparent & _).
  assert (length (config_dir a) < length (vlcrc a)) as Hlv
    by (unfold vlcrc_of, joinpath; rewrite !length_app; simpl; lia).
  assert (is_dir w2 (vlcrc a) = false) as H1.
  { rewrite (is_dir_dirs _ _ _ Hd). by rewrite is_dir_below. }
  assert (is_dir w2 (removelast (vlcrc a)) = true) as H2.
  { rewrite Hparent, (is_dir_dirs _ _ _ Hd), is_dir_add_dirs.
    apply orb_true_intro. right. apply bool_decide_eq_true, self_in_ancestors.
    unfold joinpath. by destruct (Path_of_str a). }
  etransitivity; [exact (reread_and_write_run (vlcrc a) sf r w2 H1 H2 Hr)|].
  cbv zeta. subst text. by rewrite Hfv.
Qed.

(** X12.  A run writes the merged text: when the SoundFont is a file, the
    directory can be made and the configuration path is not a directory,
    the run returns the path of the configuration file, which then holds
    the encoding of the merge of its previous lines (of no line when it
    did not exist); the backup path keeps what it held, or gets the
    previous content when it did not exist; no other file changes. *)
Theorem configure_writes_merged_text (w : World) (a : pystr) (sf r : path)
    (data : list Byte.byte) :
  is_file w sf = true →
  environ w !! py "APPDATA" = Some a → a ≠ [] →
  existsb (is_file w) (ancestors_and_self (config_dir a)) = false →
  is_dir w (vlcrc a) = false →
  (∀ w', resolve w' sf = r) →
  text_encode
    (join (update_soundfont_in_lines
             (match files w !! vlcrc a with
              | Some old => splitlines (text_decode old)
              | None => []
              end) (path_str r))) = Some data →
  ∃ w', configure sf w = (Ok (vlcrc a), w')
        ∧ files w' !! vlcrc a = Some data
        ∧ files w' !! backup a
          = (if path_exists w (backup a) then files w !! backup a
             else files w !! vlcrc a)
        ∧ (∀ q, q ≠ vlcrc a → q ≠ backup a → files w' !! q = files w !! q).
Proof.
  intros Hsf Henv Ha Hmk Hvd Hr He.
  destruct (configure_run w a sf r Hsf Henv Ha Hmk Hvd Hr) as (w2 & Hfv & Hfb & Hrun).
  cbv zeta in Hrun. rewrite He in Hrun.
  eexists. split; [exact Hrun|]. split; [|split].
  - simpl. apply lookup_insert_eq.
  - simpl. rewrite !lookup_insert_ne by apply not_eq_sym, vlcrc_not_backup.
    rewrite <- Hfb. by destruct (is_file w2 (vlcrc a)).
  - intros q Hqv Hqb.
    pose proof (keeps_world _ _ w
                  (keeps_configure Path_of_str path_str resolve text_decode
                     text_encode (environ w) q (files w !! q) sf
                     (λ a' Ha', ltac:(assert (a' = a) as -> by congruence;
                                      by split; [|left])))
                  (conj eq_refl eq_refl)) as [_ Hq].
    by rewrite Hrun in Hq.
Qed.

(** X13.  The first run on a machine without configuration file: nothing is
    read and no backup is made; the directory is made and the file is
    created with the comment and the setting, after an empty line. *)
Theorem configure_fresh_install (w : World) (a : pystr) (sf r : path)
    (data : list Byte.byte) :
  is_file w sf = true →
  environ w !! py "APPDATA" = Some a → a ≠ [] →
  existsb (is_file w) (ancestors_and_self (config_dir a)) = false →
  path_exists w (vlcrc a) = false →
  (∀ w', resolve w' sf = r) →
  text_encode (marker ++ target_line (path_str r)) = Some data →
  ∃ w', configure sf w = (Ok (vlcrc a), w')
        ∧ files w' = <[vlcrc a := data]> (files w)
        ∧ oplog w' = oplog w ++ [OpMkdir (config_dir a); OpWrite (vlcrc a)]
        ∧ is_dir w' (config_dir a) = true.
Proof.
  intros Hsf Henv Ha Hmk Hv Hr He.
  apply orb_false_elim in Hv as [Hvf Hvd].
  assert (files w !! vlcrc a = None) as Hnone.
  { apply bool_decide_eq_false in Hvf.
    destruct (files w !! vlcrc a) eqn:E; [destruct Hvf; eauto|done]. }
  destruct (vlcrc_parts a) as (_ & Hparent & _).
  assert (length (config_dir a) < length (vlcrc a)) as Hlv
    by (unfold vlcrc_of, joinpath; rewrite !length_app; simpl; lia).
  set (w1 := add_dirs (ancestors_and_self (config_dir a))
               (log (OpMkdir (config_dir a)) w)).
  assert (is_dir w1 (vlcrc a) = false) as H1 by (unfold w1; by rewrite is_dir_below).
  assert (is_dir w1 (config_dir a) = true) as H2.
  { unfold w1. rewrite is_dir_add_dirs.
    apply orb_true_intro. right. apply bool_decide_eq_true, self_in_ancestors.
    unfold joinpath. by destruct (Path_of_str a). }
  assert (backup_file (vlcrc a) w1 = (Ok tt, w1)) as Hb.
  { apply backup_noop. left. unfold path_exists. by rewrite H1, orb_false_r. }
  assert (configure sf w
          = (Ok (vlcrc a),
             set_file (vlcrc a) data
               (set_file (vlcrc a) [] (log (OpWrite (vlcrc a)) w1)))) as Hrun.
  { unfold configure_vlc_soundfont. rewrite get_bind, Hsf.
    change (negb true) with false. cbv iota.
    rewrite (ok_bind _ _ _ _ _ (get_vlc_config_file_ok w a Henv Ha Hmk)).
    fold w1. rewrite (ok_bind _ _ _ _ _ Hb).
    rewrite <- Hparent in H2.
    etransitivity; [exact (reread_and_write_run (vlcrc a) sf r w1 H1 H2 Hr)|].
    cbv zeta. change (files w1) with (files w). rewrite Hnone.
    change (is_file w1 (vlcrc a)) with (is_file w (vlcrc a)). rewrite Hvf.
    rewrite update_not_found_nil_join, He. done. }
  eexists. split; [exact Hrun|]. split; [|split].
  - simpl. apply insert_insert_eq.
  - simpl. by rewrite <- app_assoc.
  - done.
Qed.

(** X14.  When the new text cannot be encoded, the run raises after it has
    opened the configuration file for writing: the file is left empty;
    its previous content is in the backup if none existed before. *)
Theorem configure_unencodable (w : World) (a : pystr) (sf r : path)
    (old : list Byte.byte) :
  is_file w sf = true →
  environ w !! py "APPDATA" = Some a → a ≠ [] →
  existsb (is_file w) (ancestors_and_self (config_dir a)) = false →
  files w !! vlcrc a = Some old →
  is_dir w (vlcrc a) = false →
  (∀ w', resolve w' sf = r) →
  text_encode
    (join (update_soundfont_in_lines (splitlines (text_decode old))
             (path_str r))) = None →
  ∃ w', configure sf w = (Raise UnicodeEncodeError, w')
        ∧ files w' !! vlcrc a = Some []
        ∧ (path_exists w (backup a) = false → files w' !! backup a = Some old).
Proof.
  intros Hsf Henv Ha Hmk Hv Hvd Hr He.
  destruct (configure_run w a sf r Hsf Henv Ha Hmk Hvd Hr) as (w2 & Hfv & Hfb & Hrun).
  cbv zeta in Hrun. rewrite Hv, He in Hrun.
  eexists. split; [exact Hrun|]. split.
  - simpl. apply lookup_insert_eq.
  - intros Hb. simpl.
    rewrite lookup_insert_ne by apply not_eq_sym, vlcrc_not_backup.
    rewrite Hb, Hv in Hfb. rewrite <- Hfb. by destruct (is_file w2 (vlcrc a)).
Qed.

End Runs.

(** *** What no run does *)

Section Grows.

Variable I : World → Prop.
Hypothesis I_log : ∀ op w, I w → I (log op w).
Hypothesis I_add_dirs : ∀ ps w, I w → I (add_dirs ps w).
Hypothesis I_set_file : ∀ q data w, I w → I (set_file q data w).

Lemma grows_mkdir_parents (q : path) : keeps I (mkdir_parents q).
Proof.
  unfold mkdir_parents.
  apply keeps_bind; [apply keeps_modify, I_log|intros _].
  apply keeps_bind; [apply keeps_get|intros blocked].
  destruct blocked as [l|]; [|apply keeps_modify, I_add_dirs].
  case_bool_decide; apply keeps_raise.
Qed.

Lemma grows_read_bytes (q : path) : keeps I (read_bytes q).
Proof.
  unfold read_bytes. apply keeps_bind; [apply keeps_modify, I_log|intros _].
  apply keeps_bind; [apply keeps_get|intros content].
  destruct content; [apply keeps_ret|].
  apply keeps_bind; [apply keeps_get|intros d]. destruct d; apply keeps_raise.
Qed.

Lemma grows_open_w (q : path) : keeps I (open_w q).
Proof.
  unfold open_w. apply keeps_bind; [apply keeps_modify, I_log|intros _].
  apply keeps_bind; [apply keeps_get|intros d]. destruct d; [apply keeps_raise|].
  apply keeps_bind; [apply keeps_get|intros pd].
  destruct pd; [apply keeps_modify, I_set_file|apply keeps_raise].
Qed.

Lemma grows_backup_file (q : path) : keeps I (backup_file q).
Proof.
  unfold backup_file. apply keeps_bind; [apply keeps_get|intros ex].
  destruct ex; [|apply keeps_ret].
  apply keeps_bind; [apply keeps_lift|intros bak].
  apply keeps_bind; [apply keeps_get|intros bex].
  destruct bex; simpl; [apply keeps_ret|].
  apply keeps_bind; [apply grows_read_bytes|intros data].
  unfold write_bytes. apply keeps_bind; [apply grows_open_w|intros _].
  apply keeps_modify, I_set_file.
Qed.

Lemma grows_configure (Path_of_str : pystr → path) (path_str : path → pystr)
    (resolve : World → path → path) (text_decode : list Byte.byte → pystr)
    (text_encode : pystr → option (list Byte.byte)) (sf : path) :
  keeps I (configure_vlc_soundfont Path_of_str path_str resolve text_decode
             text_encode sf).
Proof.
  unfold configure_vlc_soundfont.
  apply keeps_bind; [apply keeps_get|intros isf].
  destruct isf; simpl; [|apply keeps_raise].
  apply keeps_bind.
  { unfold get_vlc_config_file. apply keeps_bind; [apply keeps_get|intros ad].
    destruct ad as [a|]; [|apply keeps_raise].
    case_bool_decide; [apply keeps_raise|].
    apply keeps_bind; [apply grows_mkdir_parents|intros _]. apply keeps_ret. }
  intros q. apply keeps_bind; [apply grows_backup_file|intros _].
  apply keeps_bind; [apply keeps_get|intros ex].
  apply keeps_bind.
  { destruct ex; [|apply keeps_ret]. unfold read_text.
    apply keeps_bind; [|intros text; apply keeps_ret].
    apply keeps_bind; [apply grows_read_bytes|intros data]. apply keeps_ret. }
  intros lines. apply keeps_bind; [apply keeps_get|intros resolved].
  apply keeps_bind; [|intros _; apply keeps_ret].
  unfold write_text. apply keeps_bind; [apply grows_open_w|intros _].
  destruct (text_encode _); [apply keeps_modify, I_set_file|apply keeps_raise].
Qed.

End Grows.

(** X15.  Whatever its arguments, the state of the machine and its outcome, a
    run deletes nothing: every file is still a file and every directory
    still a directory after it, and the environment is the same. *)
Theorem configure_deletes_nothing (Path_of_str : pystr → path)
    (path_str : path → pystr) (resolve : World → path → path)
    (text_decode : list Byte.byte → pystr)
    (text_encode : pystr → option (list Byte.byte)) (sf : path) (w : World) :
  let w' := after_run Path_of_str path_str resolve text_decode text_encode sf w in
  environ w' = environ w
  ∧ (∀ q, is_file w q = true → is_file w' q = true)
  ∧ (∀ q, is_dir w q = true → is_dir w' q = true).
Proof.
  intros w'. subst w'. unfold after_run.
  apply (keeps_world
           (λ w', environ w' = environ w
                  ∧ (∀ q, is_file w q = true → is_file w' q = true)
                  ∧ (∀ q, is_dir w q = true → is_dir w' q = true))); [|done].
  apply grows_configure.
  - by intros op w0 H.
  - intros ps w0 (He & Hf & Hd). repeat split; try done.
    intros q Hq. rewrite is_dir_add_dirs. by rewrite (Hd q Hq).
  - intros q data w0 (He & Hf & Hd). repeat split; try done.
    intros q' Hq'. specialize (Hf q' Hq'). unfold is_file in *. simpl.
    apply bool_decide_eq_true. apply bool_decide_eq_true in Hf.
    destruct (decide (q = q')) as [->|Hne].
    + rewrite lookup_insert_eq. eauto.
    + by rewrite lookup_insert_ne.
Qed.

Lemma config_file_location_witness :
  fst (get_vlc_config_file simple_Path fresh_world)
  = Ok [py "C:"; py "vlc"; py "vlcrc"]
  ∧ is_dir (snd (get_vlc_config_file simple_Path fresh_world))
      [py "C:"; py "vlc"] = true.
Proof.
  pose proof (config_file_location simple_Path fresh_world (py "C:")) as H.
  destruct (get_vlc_config_file simple_Path fresh_world) as [r w'] eqn:E.
  destruct H as (_ & _ & _ & H); [reflexivity|discriminate|].
  change (existsb (is_file fresh_world) (ancestors_and_self (simple_Path (py "C:"))))
    with false in H.
  change (is_file fresh_world (joinpath (simple_Path (py "C:")) (py "vlc")))
    with false in H.
  destruct H as (-> & _ & H). split; [reflexivity|exact H].
Defined.

Lemma configure_writes_merged_text_witness :
  ∃ w', example_run [py "D:"; py "Monalisa.sf2"] example_world
        = (Ok [py "C:"; py "vlc"; py "vlcrc"], w')
        ∧ files w' !! [py "C:"; py "vlc"; py "vlcrc"]
          = Some (utf8 (target_line (py "D:/Monalisa.sf2")
                          ++ py "foo=1" ++ [LF])).
Proof.
  destruct (configure_writes_merged_text simple_Path simple_str simple_resolve
              utf8_read utf8_write example_world (py "C:")
              [py "D:"; py "Monalisa.sf2"] [py "D:"; py "Monalisa.sf2"]
              (utf8 (target_line (py "D:/Monalisa.sf2") ++ py "foo=1" ++ [LF])))
    as (w' & H & F & _);
    [reflexivity|reflexivity|discriminate|reflexivity|reflexivity
    |intros; reflexivity|reflexivity|].
  exists w'. split; [exact H|exact F].
Defined.

Lemma configure_fresh_install_witness :
  ∃ w', example_run [py "D:"; py "Monalisa.sf2"] fresh_world
        = (Ok [py "C:"; py "vlc"; py "vlcrc"], w')
        ∧ oplog w' = [OpMkdir [py "C:"; py "vlc"];
                      OpWrite [py "C:"; py "vlc"; py "vlcrc"]].
Proof.
  destruct (configure_fresh_install simple_Path simple_str simple_resolve
              utf8_read utf8_write fresh_world (py "C:")
              [py "D:"; py "Monalisa.sf2"] [py "D:"; py "Monalisa.sf2"]
              (utf8 (marker ++ target_line (py "D:/Monalisa.sf2"))))
    as (w' & H & _ & L & _);
    [reflexivity|reflexivity|discriminate|reflexivity|reflexivity
    |intros; reflexivity|reflexivity|].
  exists w'. split; [exact H|exact L].
Defined.

Lemma configure_unencodable_witness :
  ∃ w', example_run odd_name odd_name_world = (Raise UnicodeEncodeError, w')
        ∧ files w' !! [py "C:"; py "vlc"; py "vlcrc"] = Some [].
Proof.
  destruct (configure_unencodable simple_Path simple_str simple_resolve
              utf8_read utf8_write odd_name_world (py "C:") odd_name odd_name
              (utf8 (py "#soundfont=" ++ [LF] ++ py "foo=1" ++ [LF])))
    as (w' & H & F & _);
    [reflexivity|reflexivity|discriminate|reflexivity|reflexivity|reflexivity
    |intros; reflexivity|reflexivity|].
  exists w'. split; [exact H|exact F].
Defined.

(** The two ways in which the directory cannot be made. *)
Example config_dir_under_a_file :
  get_vlc_config_file simple_Path appdata_file_world
  = (Raise NotADirectoryError,
     log (OpMkdir [py "C:"; py "vlc"]) appdata_file_world).
Proof. reflexivity. Qed.

Example config_dir_is_a_file :
  get_vlc_config_file simple_Path vlc_file_world
  = (Raise FileExistsError, log (OpMkdir [py "C:"; py "vlc"]) vlc_file_world).
Proof. reflexivity. Qed.

(** The text layer on some byte strings: the euro sign has three bytes,
    a lone surrogate has no encoding; on reading, bytes that are not UTF-8
    are dropped and [\r\n] becomes [\n]. *)
Example utf8_write_euro :
  utf8_write (py "a" ++ [8364%N]) = Some [Byte.x61; Byte.xe2; Byte.x82; Byte.xac].
Proof. reflexivity. Qed.

Example utf8_write_surrogate : utf8_write (py "a" ++ [56575%N]) = None.
Proof. reflexivity. Qed.

Example utf8_read_drops_and_translates :
  utf8_read [Byte.x61; Byte.xff; Byte.xe2; Byte.x82; Byte.xac; Byte.x0d;
             Byte.x0a; Byte.x62; Byte.xc3]
  = py "a" ++ [8364%N; LF] ++ py "b".
Proof. reflexivity. Qed.

End ConfigureMore.

(** ** The steps of the orchestrator *)

Module OrchestratorMore.
Import PatchVlc OrchestratorSpec.

Section Steps.

Context {World : Type} (host : Host World).

Implicit Types (st : @State World) (w : World).

Local Abbreviation Scr := (@Script World).

(** *** Required tools *)

Lemma check_tool_found (tool : pystr) st :
  which host (world st) tool = true → check_tool host tool st = (Done tt, st).
Proof. intros H. unfold check_tool. by rewrite ask_bind, H. Qed.

Lemma check_tool_missing (tool : pystr) st :
  which host (world st) tool = false →
  check_tool host tool st
  = (SysExit 1,
     mkState (world st)
       (events st ++ [EvErr (py "[ERROR] Required tool not found on PATH: "
                             ++ tool)])).
Proof. intros H. unfold check_tool. by rewrite ask_bind, H. Qed.

(** X16.  When [git] is not on the path, or [make] is not and one of
    [--configure], [--build], [--bootstrap] is given, [main] exits with
    status 1 having only printed which tool is missing: no directory is
    made, no command is started and the machine is as it was. *)
Theorem missing_tool_stops_main (args : Args) st :
  which host (world st) (py "git") = false
  ∨ (configure args || build args || bootstrap args = true
     ∧ which host (world st) (py "make") = false) →
  ∃ tool, (tool = py "git" ∨ tool = py "make")
          ∧ main host args st
            = (SysExit 1,
               mkState (world st)
                 (events st
                  ++ [EvErr (py "[ERROR] Required tool not found on PATH: "
                             ++ tool)])).
Proof.
  intros H. unfold main, main_prepare.
  destruct (which host (world st) (py "git")) eqn:Hgit.
  - destruct H as [H|[Hneed Hmake]]; [done|].
    exists (py "make"). split; [by right|].
    apply exit_bind.
    rewrite (done_bind _ _ _ _ _ (check_tool_found (py "git") st Hgit)).
    rewrite Hneed. apply exit_bind. by apply check_tool_missing.
  - exists (py "git"). split; [by left|].
    apply exit_bind, exit_bind. by apply check_tool_missing.
Qed.

(** *** The commands a step starts *)

Lemma runs_within_bind {A B} (c : Scr A) (k : A → Scr B)
    (exp1 exp2 : list (list pystr)) :
  runs_within c exp1 → (∀ a, runs_within (k a) exp2) →
  runs_within (c ≫= k) (exp1 ++ exp2).
Proof.
  intros Hc Hk st. destruct (Hc st) as (ran1 & E1 & P1 & D1).
  unfold mbind, Script_bind. destruct (c st) as [[a| |] st1]; simpl in *.
  - destruct (Hk a st1) as (ran2 & E2 & P2 & D2).
    exists (exp1 ++ ran2). rewrite (D1 a eq_refl) in E1.
    split; [by rewrite E2, E1, app_assoc|]. split; [by apply prefix_app|].
    intros b Hb. by rewrite (D2 b Hb).
  - exists ran1. split; [done|]. split; [by apply prefix_app_r|done].
  - exists ran1. split; [done|]. split; [by apply prefix_app_r|done].
Qed.

Lemma runs_within_quiet {A} (c : Scr A) :
  (∀ st, commands (events (c st).2) = commands (events st)) →
  runs_within c [].
Proof.
  intros H st. exists []. by rewrite H, app_nil_r.
Qed.

Lemma runs_within_emit (ev : event) :
  commands [ev] = [] → runs_within (emit ev : Scr unit) [].
Proof.
  intros H. apply runs_within_quiet. intros st. simpl.
  by rewrite commands_app, H, app_nil_r.
Qed.

Lemma runs_within_ask {A} (f : World → A) : runs_within (ask f) [].
Proof. by apply runs_within_quiet. Qed.

Lemma runs_within_ret {A} (a : A) : runs_within (mret a : Scr A) [].
Proof. by apply runs_within_quiet. Qed.

Lemma runs_within_mkdir (p : path) : runs_within (mkdir host p) [].
Proof.
  apply runs_within_quiet. intros st. unfold mkdir.
  by destruct (host_mkdir host p (world st)).
Qed.

Lemma runs_within_run (cmd : list pystr) (cwd : option path) :
  runs_within (run host cmd cwd) [cmd].
Proof.
  intros st. exists [cmd]. split; [|done].
  unfold run, print. rewrite emit_bind.
  unfold subprocess, mbind, Script_bind. simpl.
  destruct (subprocess_run host cmd (option_map (host_str host) cwd) (world st))
    as [[rc|] w']; simpl.
  - destruct (rc =? 0)%Z; simpl; rewrite !commands_app; simpl;
      by rewrite ?app_nil_r.
  - rewrite !commands_app. simpl. by rewrite app_nil_r.
Qed.

Lemma runs_within_seq {A B} (c : Scr A) (k : A → Scr B)
    (exp : list (list pystr)) :
  runs_within c [] → (∀ a, runs_within (k a) exp) → runs_within (c ≫= k) exp.
Proof. intros Hc Hk. by apply (runs_within_bind c k [] exp). Qed.

(** X17.  [ensure_repo] never starts anything but, in this order, a clone
    into a directory that does not exist or a fetch in one that does,
    the checkout of the branch and a pull of it: the commands it starts
    are the first ones of this list whatever they return, and all of
    them when it returns, with the directory [vlc] of the work
    directory. *)
Theorem ensure_repo_commands (work_dir : path) (remote branch : pystr) st :
  let repo_dir := joinpath work_dir (py "vlc") in
  let expected :=
    [if host_exists host (world st) repo_dir
     then [py "git"; py "fetch"; py "origin"]
     else [py "git"; py "clone"; remote; host_str host repo_dir];
     [py "git"; py "checkout"; branch];
     [py "git"; py "pull"; py "origin"; branch]] in
  let '(r, st') := ensure_repo host work_dir remote branch st in
  ∃ ran, commands (events st') = commands (events st) ++ ran
         ∧ ran `prefix_of` expected
         ∧ (∀ d, r = Done d → d = repo_dir ∧ ran = expected).
Proof.
  intros repo_dir expected.
  set (first := if host_exists host (world st) repo_dir
                then [py "git"; py "fetch"; py "origin"]
                else [py "git"; py "clone"; remote; host_str host repo_dir]).
  assert (runs_within
            (if negb (host_exists host (world st) repo_dir) then
               print (py "[INFO] Cloning VLC into " ++ host_str host repo_dir) ;;
               mkdir host work_dir ;;
               run host [py "git"; py "clone"; remote; host_str host repo_dir] None
             else
               print (py "[INFO] VLC repo exists at " ++ host_str host repo_dir
                      ++ py ", fetching updates") ;;
               run host [py "git"; py "fetch"; py "origin"] (Some repo_dir))
            [first]) as Hfirst.
  { unfold first. destruct (host_exists host (world st) repo_dir); simpl.
    - apply runs_within_seq; [by apply runs_within_emit|intros _].
      apply runs_within_run.
    - apply runs_within_seq; [by apply runs_within_emit|intros _].
      apply runs_within_seq; [apply runs_within_mkdir|intros _].
      apply runs_within_run. }
  assert (runs_within
            (print (py "[INFO] Checking out branch " ++ branch) ;;
             run host [py "git"; py "checkout"; branch] (Some repo_dir) ;;
             run host [py "git"; py "pull"; py "origin"; branch] (Some repo_dir) ;;
             mret repo_dir)
            ([[py "git"; py "checkout"; branch]]
             ++ [[py "git"; py "pull"; py "origin"; branch]] ++ [])) as Hrest.
  { apply runs_within_seq; [by apply runs_within_emit|intros _].
    apply runs_within_bind; [apply runs_within_run|intros _].
    apply runs_within_bind; [apply runs_within_run|intros _].
    apply runs_within_ret. }
  pose proof (runs_within_bind _ (λ _, _) _ _ Hfirst (λ _, Hrest) st) as H.
  unfold ensure_repo. fold repo_dir. rewrite ask_bind.
  destruct H as (ran & E & P & D).
  match type of E with context [(?c st).2] => set (res := c st) in * end.
  destruct res as [r st'] eqn:Hrun. subst res. simpl in *.
  exists ran. split; [done|]. split; [done|].
  intros d ->. split; [|by apply (D d)].
  revert Hrun. unfold mbind, Script_bind.
  repeat (match goal with
          | |- context [match ?c with _ => _ end] =>
              destruct c as [[?| |] ?]; simpl
          end; try done).
  by intros [= <- _].
Qed.

(** *** Applying the patches *)

Lemma runs_within_for_each (repo_dir : path) (reverse : bool) (ps : list path) :
  runs_within (for_each ps (apply_patch host repo_dir reverse))
    (apply_cmd host reverse <$> ps).
Proof.
  induction ps as [|p ps IH]; [apply runs_within_ret|].
  rewrite fmap_cons. simpl.
  apply (runs_within_bind _ _ [apply_cmd host reverse p]); [|by intros _].
  unfold apply_patch. apply runs_within_seq; [by apply runs_within_emit|intros _].
  apply runs_within_run.
Qed.


Lemma for_each_all_ok (repo_dir : path) (reverse : bool) (ps : list path)
    (w' : World) st :
  all_succeed host (apply_cmd host reverse <$> ps)
    (Some (host_str host repo_dir)) (world st) = Some w' →
  ∃ st', for_each ps (apply_patch host repo_dir reverse) st = (Done tt, st')
         ∧ world st' = w'
         ∧ commands (events st')
           = commands (events st) ++ (apply_cmd host reverse <$> ps).
Proof.
  revert st. induction ps as [|q ps IH]; intros st Hok.
  - simpl in Hok. injection Hok as <-. exists st. by rewrite app_nil_r.
  - rewrite fmap_cons in Hok. simpl in Hok.
    destruct (subprocess_run host (apply_cmd host reverse q)
                (Some (host_str host repo_dir)) (world st))
      as [[rc0|] w1] eqn:Hq; [|done].
    destruct (Z.eqb_spec rc0 0) as [->|]; [|done].
    set (st1 := mkState w1
                  ((events st ++ [EvOut (py "[INFO] Applying patch: " ++ name q)])
                   ++ [EvOut ([LF] ++ py "[RUN] "
                               ++ join_sep (py " ") (apply_cmd host reverse q));
                       EvRun (apply_cmd host reverse q)
                         (Some (host_str host repo_dir))])).
    destruct (IH st1 Hok) as (st' & Hfor & Hw & Hc).
    exists st'. split; [|split; [done|]].
    + simpl. rewrite (done_bind _ _ st st1 tt); [done|].
      unfold apply_patch, print, st1. rewrite emit_bind.
      exact (run_ok host _ (Some repo_dir) (mkState (world st) _) w1 Hq).
    + rewrite Hc. unfold st1. cbn [events]. rewrite !commands_app.
      cbn [commands]. rewrite app_nil_r, fmap_cons. by rewrite <- app_assoc.
Qed.

(** X19.  When every patch applies, [apply_patches] returns after one
    [git apply] per patch file in sorted order, each run in the state the
    previous one left; in reverse mode the order is the same. *)
Theorem apply_patches_applies_all (repo_dir patches_dir : path)
    (reverse : bool) (w' : World) st :
  host_exists host (world st) patches_dir = true →
  all_succeed host
    (apply_cmd host reverse <$> sorted (host_glob host (world st) patches_dir))
    (Some (host_str host repo_dir)) (world st) = Some w' →
  ∃ st', apply_patches host repo_dir patches_dir reverse st = (Done tt, st')
         ∧ world st' = w'
         ∧ commands (events st')
           = commands (events st)
             ++ (apply_cmd host reverse
                   <$> sorted (host_glob host (world st) patches_dir)).
Proof.
  intros Hex Hok. unfold apply_patches. rewrite ask_bind, Hex.
  change (negb true) with false. cbv iota. rewrite ask_bind.
  destruct (sorted (host_glob host (world st) patches_dir)) as [|p ps] eqn:E.
  - simpl in Hok. injection Hok as <-. eexists. split; [done|]. split; [done|].
    simpl. rewrite commands_app. simpl. by rewrite !app_nil_r.
  - unfold print. rewrite emit_bind.
    destruct (for_each_all_ok repo_dir reverse (p :: ps) w'
                (mkState (world st)
                   (events st ++ [EvOut (py "[INFO] Applying patches from "
                                         ++ host_str host patches_dir)])) Hok)
      as (st' & Hfor & Hw & Hc).
    exists st'. split; [done|]. split; [done|].
    rewrite Hc. simpl. rewrite commands_app. simpl. by rewrite app_nil_r.
Qed.

(** *** Configuring *)

(** X20.  When the [configure] script is not in the repository, after the
    bootstrap if one was asked for and has returned 0, [configure_vlc]
    prints the advice to use [--bootstrap] and exits with status 1: the
    script is not started. *)
Theorem configure_script_missing (repo_dir build_dir : path)
    (extra_flags : list pystr) (run_bootstrap : bool) (w1 w2 : World) st :
  host_mkdir host build_dir (world st) = Some w1 →
  (if run_bootstrap
   then subprocess_run host [py "./bootstrap"]
          (Some (host_str host repo_dir)) w1 = (Returned 0, w2)
   else w2 = w1) →
  host_exists host w2 (joinpath repo_dir (py "configure")) = false →
  ∃ st', configure_vlc host repo_dir build_dir extra_flags run_bootstrap st
         = (SysExit 1, st')
         ∧ world st' = w2
         ∧ commands (events st')
           = commands (events st)
             ++ (if run_bootstrap then [[py "./bootstrap"]] else [])
         ∧ last (events st')
           = Some (EvErr (py "[ERROR] configure script not found. Try running with --bootstrap.")).
Proof.
  intros Hmk Hboot Hex. unfold configure_vlc.
  assert (mkdir host build_dir st = (Done tt, mkState w1 (events st))) as H1
    by (unfold mkdir; by rewrite Hmk).
  rewrite (done_bind _ _ _ _ _ H1).
  destruct run_bootstrap.
  - set (st1 := mkState w1 (events st
                            ++ [EvOut (py "[INFO] Running ./bootstrap in VLC repo")])).
    pose proof (run_ok host [py "./bootstrap"] (Some repo_dir) st1 w2 Hboot) as H2.
    assert ((print (py "[INFO] Running ./bootstrap in VLC repo") ;;
             run host [py "./bootstrap"] (Some repo_dir))
              (mkState w1 (events st)) = (Done tt, _)) as H3
      by (unfold print; rewrite emit_bind; exact H2).
    rewrite (done_bind _ _ _ _ _ H3). rewrite ask_bind. simpl. rewrite Hex. simpl.
    eexists. split; [done|]. split; [done|]. split.
    + simpl. rewrite !commands_app. simpl. by rewrite !app_nil_r.
    + simpl. by rewrite last_snoc.
  - subst w2. rewrite (done_bind _ _ _ (mkState w1 (events st)) tt) by done.
    rewrite ask_bind. simpl. rewrite Hex. simpl.
    eexists. split; [done|]. split; [done|]. split.
    + simpl. rewrite !commands_app. simpl. by rewrite !app_nil_r.
    + simpl. by rewrite last_snoc.
Qed.

Lemma runs_within_exit {A} (line : pystr) (code : Z)
    (expected : list (list pystr)) :
  runs_within (print_err line ;; sys_exit code : Scr A) expected.
Proof.
  intros st. exists []. simpl. rewrite commands_app. simpl.
  rewrite !app_nil_r. split; [done|]. split; [apply prefix_nil|done].
Qed.

(** X23.  [configure_vlc] starts, in this order, the bootstrap if it is
    asked for and the configure script of the repository with the
    install prefix under the build directory followed by the extra flags
    as they are given, and nothing else: what it starts is an initial
    part of this list, and the whole list when it returns. *)
Theorem configure_vlc_commands (repo_dir build_dir : path)
    (extra_flags : list pystr) (run_bootstrap : bool) :
  runs_within
    (configure_vlc host repo_dir build_dir extra_flags run_bootstrap)
    ((if run_bootstrap then [[py "./bootstrap"]] else [])
     ++ [[host_str host (joinpath repo_dir (py "configure"));
          py "--prefix=" ++ host_str host (joinpath build_dir (py "install"))]
         ++ extra_flags]).
Proof.
  unfold configure_vlc.
  apply runs_within_seq; [apply runs_within_mkdir|intros _].
  apply runs_within_bind.
  - destruct run_bootstrap; [|apply runs_within_ret].
    apply runs_within_seq; [by apply runs_within_emit|intros _].
    apply runs_within_run.
  - intros _. apply runs_within_seq; [apply runs_within_ask|intros ex].
    destruct ex; simpl; [|apply runs_within_exit].
    apply runs_within_seq; [by apply runs_within_emit|intros _].
    apply runs_within_run.
Qed.

(** *** What [main] starts *)

Section OnlyRuns.

Variable P : list pystr → Prop.

Lemma only_runs_bind {A B} (c : Scr A) (k : A → Scr B) :
  only_runs P c → (∀ a, only_runs P (k a)) → only_runs P (c ≫= k).
Proof.
  intros Hc Hk st. destruct (Hc st) as (ran1 & E1 & F1).
  unfold mbind, Script_bind. destruct (c st) as [[a| |] st1]; simpl in *.
  - destruct (Hk a st1) as (ran2 & E2 & F2).
    exists (ran1 ++ ran2). split; [by rewrite E2, E1, app_assoc|].
    by apply Forall_app.
  - by exists ran1.
  - by exists ran1.
Qed.

Lemma only_runs_within {A} (c : Scr A) (expected : list (list pystr)) :
  runs_within c expected → Forall P expected → only_runs P c.
Proof.
  intros H F st. destruct (H st) as (ran & E & [k ->] & _).
  exists ran. split; [done|]. by apply Forall_app in F as [F _].
Qed.

Lemma only_runs_quiet {A} (c : Scr A) : runs_within c [] → only_runs P c.
Proof. intros H. by apply (only_runs_within c []). Qed.

Lemma only_runs_run (cmd : list pystr) (cwd : option path) :
  P cmd → only_runs P (run host cmd cwd).
Proof.
  intros H. apply (only_runs_within _ [cmd]); [apply runs_within_run|].
  by constructor.
Qed.

Lemma only_runs_print (line : pystr) : only_runs P (print line : Scr unit).
Proof. by apply only_runs_quiet, runs_within_emit. Qed.

Lemma only_runs_exit {A} (line : pystr) (code : Z) :
  only_runs P (print_err line ;; sys_exit code : Scr A).
Proof.
  apply only_runs_quiet, runs_within_quiet. intros st. simpl.
  rewrite commands_app. simpl. by rewrite app_nil_r.
Qed.

Lemma only_runs_check_tool (tool : pystr) : only_runs P (check_tool host tool).
Proof.
  unfold check_tool.
  apply only_runs_bind; [apply only_runs_quiet, runs_within_ask|intros found].
  destruct found; [apply only_runs_quiet, runs_within_ret|apply only_runs_exit].
Qed.

Hypothesis P_git : ∀ cmd, head cmd = Some (py "git") → P cmd.

Lemma only_runs_ensure_repo (work_dir : path) (remote branch : pystr) :
  only_runs P (ensure_repo host work_dir remote branch).
Proof.
  unfold ensure_repo.
  apply only_runs_bind; [apply only_runs_quiet, runs_within_ask|intros ex].
  apply only_runs_bind.
  { destruct ex; simpl.
    - apply only_runs_bind; [apply only_runs_print|intros _].
      by apply only_runs_run, P_git.
    - apply only_runs_bind; [apply only_runs_print|intros _].
      apply only_runs_bind; [apply only_runs_quiet, runs_within_mkdir|intros _].
      by apply only_runs_run, P_git. }
  intros _. apply only_runs_bind; [apply only_runs_print|intros _].
  apply only_runs_bind; [by apply only_runs_run, P_git|intros _].
  apply only_runs_bind; [by apply only_runs_run, P_git|intros _].
  apply only_runs_quiet, runs_within_ret.
Qed.

Lemma only_runs_apply_patches (repo_dir patches_dir : path) (reverse : bool) :
  only_runs P (apply_patches host repo_dir patches_dir reverse).
Proof.
  unfold apply_patches.
  apply only_runs_bind; [apply only_runs_quiet, runs_within_ask|intros ex].
  destruct ex; simpl; [|apply only_runs_print].
  apply only_runs_bind; [apply only_runs_quiet, runs_within_ask|intros ps].
  destruct ps as [|p ps]; [apply only_runs_print|].
  apply only_runs_bind; [apply only_runs_print|intros _].
  apply (only_runs_within _ _ (runs_within_for_each repo_dir reverse (p :: ps))).
  apply Forall_fmap, Forall_forall. intros q _. by apply P_git.
Qed.

Lemma only_runs_main_prepare (args : Args) :
  only_runs P (main_prepare host args).
Proof.
  unfold main_prepare.
  apply only_runs_bind; [apply only_runs_check_tool|intros _].
  apply only_runs_bind.
  { destruct (_ || _); [apply only_runs_check_tool|].
    apply only_runs_quiet, runs_within_ret. }
  intros _.
  apply only_runs_bind; [apply only_runs_quiet, runs_within_ask|intros wd].
  apply only_runs_bind; [apply only_runs_quiet, runs_within_ask|intros pd].
  apply only_runs_bind; [apply only_runs_print|intros _].
  apply only_runs_bind; [apply only_runs_print|intros _].
  apply only_runs_bind; [apply only_runs_ensure_repo|intros rd].
  apply only_runs_quiet, runs_within_ret.
Qed.

Lemma only_runs_build_vlc (build_dir : path) (jobs : Z) :
  (∀ cmd, head cmd = Some (py "make") → P cmd) →
  only_runs P (build_vlc host build_dir jobs).
Proof.
  intros Hmake. unfold build_vlc.
  apply only_runs_bind; [apply only_runs_print|intros _].
  by apply only_runs_run, Hmake.
Qed.

(** The commands of [main] satisfy [P] when those of the steps after
    the patches do. *)
Lemma only_runs_main (args : Args) :
  (∀ repo_dir build_dir, only_runs P (main_finish host args repo_dir build_dir)) →
  only_runs P (main host args).
Proof.
  intros Hfinish. unfold main.
  apply only_runs_bind; [apply only_runs_main_prepare|intros [[rd pd] bd]].
  apply only_runs_bind; [apply only_runs_apply_patches|intros _].
  apply Hfinish.
Qed.

End OnlyRuns.

(** X21.  With [--apply-only], or with neither [--configure] nor [--build],
    [main] starts [git] commands only, whatever the other flags, the
    state of the machine and the outcome of the commands. *)
Theorem main_only_git (args : Args) st :
  apply_only args = true ∨ (configure args = false ∧ build args = false) →
  ∃ ran, commands (events (main host args st).2) = commands (events st) ++ ran
         ∧ Forall (λ cmd, head cmd = Some (py "git")) ran.
Proof.
  intros H. apply (only_runs_main _ (λ _ h, h)).
  intros rd bd. unfold main_finish.
  destruct H as [->|[-> ->]]; [apply only_runs_print|].
  destruct (apply_only args); [apply only_runs_print|].
  apply only_runs_bind; [apply only_runs_quiet, runs_within_ret|intros _].
  apply only_runs_bind; [apply only_runs_quiet, runs_within_ret|intros _].
  apply only_runs_print.
Qed.

(** X22.  Without [--configure], [main] starts [git] and [make] commands
    only: [--bootstrap] alone runs no bootstrap, and the configure script
    is not run either. *)
Theorem main_without_configure (args : Args) st :
  configure args = false →
  ∃ ran, commands (events (main host args st).2) = commands (events st) ++ ran
         ∧ Forall (λ cmd, head cmd = Some (py "git")
                          ∨ head cmd = Some (py "make")) ran.
Proof.
  intros H. apply (only_runs_main _ (λ _ h, or_introl h)).
  intros rd bd. unfold main_finish. rewrite H.
  destruct (apply_only args); [apply only_runs_print|].
  apply only_runs_bind; [apply only_runs_quiet, runs_within_ret|intros _].
  apply only_runs_bind; [|intros _; apply only_runs_print].
  destruct (build args); [|apply only_runs_quiet, runs_within_ret].
  apply only_runs_build_vlc. by right.
Qed.

End Steps.

Lemma missing_tool_stops_main_witness :
  ∃ tool, (tool = py "git" ∨ tool = py "make")
          ∧ main bare_host example_args (mkState 0 [])
            = (SysExit 1,
               mkState 0
                 [EvErr (py "[ERROR] Required tool not found on PATH: "
                         ++ tool)]).
Proof.
  apply (missing_tool_stops_main bare_host example_args (mkState 0 [])).
  left. reflexivity.
Defined.

Lemma apply_patches_applies_all_witness :
  ∃ st', apply_patches (example_host []) [py "work"; py "vlc"] [py "patches"]
           true (mkState 0 []) = (Done tt, st')
         ∧ commands (events st')
           = [[py "git"; py "apply"; py "--reverse"; py "patches/a.patch"];
              [py "git"; py "apply"; py "--reverse"; py "patches/b.patch"];
              [py "git"; py "apply"; py "--reverse"; py "patches/c.patch"]].
Proof.
  destruct (apply_patches_applies_all (example_host []) [py "work"; py "vlc"]
              [py "patches"] true 3 (mkState 0 []))
    as (st' & H & _ & C); [reflexivity|reflexivity|].
  exists st'. split; [exact H|exact C].
Defined.

Lemma configure_script_missing_witness :
  ∃ st', configure_vlc bare_host [py "work"; py "vlc"] [py "work"; py "build"]
           [] false (mkState 0 []) = (SysExit 1, st')
         ∧ commands (events st') = [].
Proof.
  destruct (configure_script_missing bare_host [py "work"; py "vlc"]
              [py "work"; py "build"] [] false 0 0 (mkState 0 []))
    as (st' & H & _ & C & _); [reflexivity|reflexivity|reflexivity|].
  exists st'. split; [exact H|exact C].
Defined.

Lemma main_only_git_witness :
  ∃ ran, commands (events (main (example_host []) example_args
                             (mkState 0 [])).2) = [] ++ ran
         ∧ Forall (λ cmd, head cmd = Some (py "git")) ran.
Proof.
  apply (main_only_git (example_host []) example_args (mkState 0 [])).
  left. reflexivity.
Defined.

Lemma main_without_configure_witness :
  ∃ ran, commands (events (main (example_host []) build_args
                             (mkState 0 [])).2) = [] ++ ran
         ∧ Forall (λ cmd, head cmd = Some (py "git")
                          ∨ head cmd = Some (py "make")) ran.
Proof.
  apply (main_without_configure (example_host []) build_args (mkState 0 [])).
  reflexivity.
Defined.

(** The run of the second example: the patches, then [make -j 4], and no
    bootstrap though [--bootstrap] was given. *)
Example main_build_example :
  let '(r, st) := main (example_host []) build_args (mkState 0 []) in
  r = Done tt
  ∧ commands (events st)
    = [[py "git"; py "fetch"; py "origin"];
       [py "git"; py "checkout"; py "master"];
       [py "git"; py "pull"; py "origin"; py "master"];
       [py "git"; py "apply"; py "patches/a.patch"];
       [py "git"; py "apply"; py "patches/b.patch"];
       [py "git"; py "apply"; py "patches/c.patch"];
       [py "make"; py "-j"; py "4"]].
Proof. vm_compute. done. Qed.

End OrchestratorMore.
